(** * ts-testing-setup: the [Calculator] class and the [utils] helpers

    A shallow embedding of [src/Calculator.ts] and [src/utils.ts].

    - A TypeScript [number] is an IEEE 754 binary64 value: Rocq's primitive
      [float], whose operations are specified by [SpecFloat].
    - A TypeScript [string] is a sequence of UTF-16 code units.
    - A value of type [unknown] is a member of the tagged union [JS.value].
    - A method of the class is a computation over the instance's state that
      either completes normally or throws; the state outlives a throw, as the
      instance does. *)

From Stdlib Require Import ZArith NArith List String Ascii Bool Lia Floats.
Import ListNotations.

Set Warnings "-register-all,-inexact-float".

(* ================================================================== *)
(** * The language: strings, numbers, values, completions              *)
(* ================================================================== *)

Module JS.

(** ** Strings *)

(** A UTF-16 code unit (always below [2^16]; nothing here relies on the
    bound). *)
Definition code_unit := N.

Definition jsstring := list code_unit.

(** A string literal of the source, all of whose characters are ASCII. *)
Definition lit (s : string) : jsstring :=
  map N_of_ascii (list_ascii_of_string s).

(** [s.charAt(i)]: the one-unit string at index [i], the empty string when
    [i] is out of range. *)
Definition charAt (s : jsstring) (i : nat) : jsstring :=
  match nth_error s i with
  | Some u => [u]
  | None => []
  end.

(** [s.slice(i)] for a non-negative [i]. *)
Definition slice (s : jsstring) (i : nat) : jsstring := skipn i s.

(** [ToBoolean] of a string, as [!str] and [if (str)] use it: only the empty
    string is falsy. *)
Definition string_truthy (s : jsstring) : bool :=
  negb (Nat.eqb (List.length s) 0).

Definition is_high_surrogate (u : code_unit) : bool :=
  ((0xD800 <=? u) && (u <=? 0xDBFF))%N.

Definition is_low_surrogate (u : code_unit) : bool :=
  ((0xDC00 <=? u) && (u <=? 0xDFFF))%N.

Definition code_point_of_pair (hi lo : code_unit) : N :=
  (0x10000 + (hi - 0xD800) * 0x400 + (lo - 0xDC00))%N.

Definition utf16_encode (cp : N) : jsstring :=
  if (cp <? 0x10000)%N then [cp]
  else [(0xD800 + (cp - 0x10000) / 0x400)%N;
        (0xDC00 + (cp - 0x10000) mod 0x400)%N].

(** The decimal digits of a natural number, as code units. *)
Fixpoint uint_units (d : Decimal.uint) : jsstring :=
  match d with
  | Decimal.Nil => []
  | Decimal.D0 d => 48%N :: uint_units d
  | Decimal.D1 d => 49%N :: uint_units d
  | Decimal.D2 d => 50%N :: uint_units d
  | Decimal.D3 d => 51%N :: uint_units d
  | Decimal.D4 d => 52%N :: uint_units d
  | Decimal.D5 d => 53%N :: uint_units d
  | Decimal.D6 d => 54%N :: uint_units d
  | Decimal.D7 d => 55%N :: uint_units d
  | Decimal.D8 d => 56%N :: uint_units d
  | Decimal.D9 d => 57%N :: uint_units d
  end.

Definition decimal_of_Z (z : Z) : jsstring :=
  (if (z <? 0)%Z then lit "-" else []) ++ uint_units (N.to_uint (Z.abs_N z)).

(** ** Numbers *)

(** The integer a binary64 value denotes, when it denotes one. *)
Definition SFinteger (x : spec_float) : option Z :=
  match x with
  | S754_zero _ => Some 0%Z
  | S754_finite s m e =>
      if (0 <=? e)%Z then Some (cond_Zopp s (Zpos m * 2 ^ e))%Z
      else if (Zpos m mod 2 ^ (- e) =? 0)%Z
           then Some (cond_Zopp s (Zpos m / 2 ^ (- e)))%Z
           else None
  | S754_infinity _ | S754_nan => None
  end.

Definition integer_value (x : float) : option Z := SFinteger (Prim2SF x).

(** The remainder [x % y] (ECMAScript's [Number::remainder], C's [fmod]):
    the sign follows the dividend and the quotient is truncated.  Both
    operands are aligned on the smaller exponent, where the remainder is an
    integer remainder, and the result, which is exact, is normalized. *)
Definition SFrem (x y : spec_float) : spec_float :=
  match x, y with
  | S754_nan, _ | _, S754_nan => S754_nan
  | S754_infinity _, _ => S754_nan
  | _, S754_zero _ => S754_nan
  | S754_zero _, _ => x
  | _, S754_infinity _ => x
  | S754_finite sx mx ex, S754_finite sy my ey =>
      let ez := Z.min ex ey in
      let r := Z.rem (Zpos (fst (shl_align mx ex ez)))
                     (Zpos (fst (shl_align my ey ez))) in
      binary_normalize prec emax (cond_Zopp sx r) ez sx
  end.

Definition rem (x y : float) : float :=
  SF2Prim (SFrem (Prim2SF x) (Prim2SF y)).

(** ** Values of type [unknown] *)

(** What an object gives when something is asked of it: an answer, or the
    value it throws instead. *)
Inductive answer (E A : Type) : Type :=
| Answers (a : A)
| Raises (e : E).

Arguments Answers {E A} a.
Arguments Raises {E A} e.

Inductive value : Type :=
| VUndefined
| VNull
| VBoolean (b : bool)
| VNumber (n : float)
| VBigInt (z : Z)
| VString (s : jsstring)
| VSymbol (description : option jsstring)
  (** An error as the [Error] constructors make it: [instanceof Error]
      holds and its [message] is a data property holding a string. *)
| VError (message : jsstring) (stringified : option jsstring)
  (** An object, not an [Error], all of whose properties are data
      properties: whether it is callable, the properties reachable
      through it (own or inherited), and what converting it to a string
      gives, [None] when it has no [toString] or [valueOf] to be
      converted with, which is a [TypeError]. *)
| VObject (callable : bool) (properties : list (jsstring * value))
          (stringified : option jsstring)
  (** Any other object (one with accessors, a proxy, an instance of
      [Error] whose [message] was replaced, an object whose [toString]
      throws, ...), known by what it gives when asked what can be asked
      here: whether it is callable, [instanceof Error], ["message" in],
      the reading of [.message], the conversion to a string. *)
| VExotic (callable : bool)
          (is_Error : answer value bool)
          (has_message : answer value bool)
          (message : answer value value)
          (stringified : answer value jsstring).

(** How a call ends: normally with a result, or by throwing a value. *)
Inductive completion (A : Type) : Type :=
| Normal (a : A)
| Throw (e : value).

Arguments Normal {A} a.
Arguments Throw {A} e.

(** [new Error(message)] *)
Definition new_Error (message : jsstring) : value :=
  VError message (Some (lit "Error: " ++ message)).

(** The [TypeError] of a failed conversion to a primitive value. *)
Definition TypeError_not_primitive : value :=
  VError (lit "Cannot convert object to primitive value")
         (Some (lit "TypeError: Cannot convert object to primitive value")).

Inductive type_tag : Type :=
| TUndefined | TObject | TBoolean | TNumber | TBigInt | TString | TSymbol
| TFunction.

Definition typeof (v : value) : type_tag :=
  match v with
  | VUndefined => TUndefined
  | VNull => TObject
  | VBoolean _ => TBoolean
  | VNumber _ => TNumber
  | VBigInt _ => TBigInt
  | VString _ => TString
  | VSymbol _ => TSymbol
  | VError _ _ => TObject
  | VObject callable _ _ => if callable then TFunction else TObject
  | VExotic callable _ _ _ _ => if callable then TFunction else TObject
  end.

Definition type_tag_eqb (a b : type_tag) : bool :=
  match a, b with
  | TUndefined, TUndefined | TObject, TObject | TBoolean, TBoolean
  | TNumber, TNumber | TBigInt, TBigInt | TString, TString
  | TSymbol, TSymbol | TFunction, TFunction => true
  | _, _ => false
  end.

(** [ToBoolean] *)
Definition truthy (v : value) : bool :=
  match v with
  | VUndefined | VNull => false
  | VBoolean b => b
  | VNumber n => negb ((n =? 0)%float || negb (n =? n)%float)
  | VBigInt z => negb (z =? 0)%Z
  | VString s => string_truthy s
  | VSymbol _ | VError _ _ | VObject _ _ _ | VExotic _ _ _ _ _ => true
  end.

Fixpoint assoc (k : jsstring) (ps : list (jsstring * value)) : option value :=
  match ps with
  | [] => None
  | (k', v) :: ps' =>
      if list_eq_dec N.eq_dec k k' then Some v else assoc k ps'
  end.

(** How an answer ends the evaluation that asked for it. *)
Definition outcome {A : Type} (a : answer value A) : completion A :=
  match a with
  | Answers x => Normal x
  | Raises e => Throw e
  end.

(** One evaluation after another: the second is not made when the first
    throws. *)
Definition and_then {A B : Type} (m : completion A) (k : A -> completion B)
  : completion B :=
  match m with
  | Normal a => k a
  | Throw e => Throw e
  end.

(** The [TypeError] of [in] applied to what is not an object. *)
Definition TypeError_in : value :=
  VError (lit "Cannot use 'in' operator")
         (Some (lit "TypeError: Cannot use 'in' operator")).

(** The [TypeError] of reading a property of [null] or [undefined]. *)
Definition TypeError_read : value :=
  VError (lit "Cannot read properties of null or undefined")
         (Some (lit "TypeError: Cannot read properties of null or undefined")).

(** [v instanceof Error], for the [Error] of the host. *)
Definition instanceof_Error (v : value) : completion bool :=
  match v with
  | VError _ _ => Normal true
  | VExotic _ is_Error _ _ _ => outcome is_Error
  | _ => Normal false
  end.

(** ["message" in v] *)
Definition message_in (v : value) : completion bool :=
  match v with
  | VError _ _ => Normal true
  | VObject _ ps _ =>
      Normal match assoc (lit "message") ps with
             | Some _ => true
             | None => false
             end
  | VExotic _ _ has_message _ _ => outcome has_message
  | _ => Throw TypeError_in
  end.

(** [v.message] *)
Definition message_of (v : value) : completion value :=
  match v with
  | VError m _ => Normal (VString m)
  | VObject _ ps _ =>
      Normal match assoc (lit "message") ps with
             | Some w => w
             | None => VUndefined
             end
  | VExotic _ _ _ message _ => outcome message
  | VUndefined | VNull => Throw TypeError_read
  | _ => Normal VUndefined
  end.

Section Host.

(** The digits [Number::toString] produces for a number that is finite and
    not an integer below [2^53] in magnitude (the shortest decimal that
    reads back as the number). *)
Variable shortest_decimal : float -> jsstring.

(** [Number::toString] in radix 10. *)
Definition Number_toString (n : float) : jsstring :=
  match Prim2SF n with
  | S754_nan => lit "NaN"
  | S754_zero _ => lit "0"
  | S754_infinity s => if s then lit "-Infinity" else lit "Infinity"
  | S754_finite _ _ _ =>
      match integer_value n with
      | Some z =>
          if (Z.abs z <? 2 ^ 53)%Z then decimal_of_Z z else shortest_decimal n
      | None => shortest_decimal n
      end
  end.

(** The function call [String(v)]. *)
Definition String_ (v : value) : completion jsstring :=
  match v with
  | VUndefined => Normal (lit "undefined")
  | VNull => Normal (lit "null")
  | VBoolean b => Normal (if b then lit "true" else lit "false")
  | VNumber n => Normal (Number_toString n)
  | VBigInt z => Normal (decimal_of_Z z)
  | VString s => Normal s
  | VSymbol d =>
      Normal (lit "Symbol(" ++ match d with Some s => s | None => [] end
                ++ lit ")")
  | VError _ (Some s) | VObject _ _ (Some s) => Normal s
  | VError _ None | VObject _ _ None => Throw TypeError_not_primitive
  | VExotic _ _ _ _ stringified => outcome stringified
  end.

(** The upper-case mapping of a code point outside ASCII, from the Unicode
    character database. *)
Variable unicode_upper : N -> list N.

Definition upper_code_point (cp : N) : list N :=
  if ((97 <=? cp) && (cp <=? 122))%N then [(cp - 32)%N]
  else if (cp <? 128)%N then [cp]
  else if is_high_surrogate cp || is_low_surrogate cp then [cp]
  else unicode_upper cp.

(** [s.toUpperCase()]: code point by code point, a surrogate pair being one
    code point and a lone surrogate staying as it is. *)
Fixpoint toUpperCase (s : jsstring) : jsstring :=
  match s with
  | [] => []
  | u :: t =>
      match t with
      | l :: t' =>
          if is_high_surrogate u && is_low_surrogate l
          then flat_map utf16_encode (upper_code_point (code_point_of_pair u l))
                 ++ toUpperCase t'
          else flat_map utf16_encode (upper_code_point u) ++ toUpperCase t
      | [] => flat_map utf16_encode (upper_code_point u)
      end
  end.

End Host.

(** ** Regular expressions *)

(** A member of a character class: a character, or the escape [\s]. *)
Inductive class_atom : Type :=
| ClassChar (c : code_unit)
| ClassWhiteSpace.

Inductive atom : Type :=
| PatternCharacter (c : code_unit)
| CharacterClass (inverted : bool) (members : list class_atom).

Inductive quantifier : Type :=
| Once
| OneOrMore.

Inductive term : Type :=
| AssertStart
| AssertEnd
| Atom (a : atom) (q : quantifier).

(** A pattern without alternation or groups: a sequence of terms. *)
Definition pattern := list term.

(** [\s]: the white space and line terminator code points. *)
Definition is_white_space (c : code_unit) : bool :=
  ((9 <=? c) && (c <=? 13) || (c =? 32) || (c =? 0xA0) || (c =? 0x1680)
   || (0x2000 <=? c) && (c <=? 0x200A) || (c =? 0x2028) || (c =? 0x2029)
   || (c =? 0x202F) || (c =? 0x205F) || (c =? 0x3000) || (c =? 0xFEFF))%N.

Definition class_atom_matches (m : class_atom) (c : code_unit) : bool :=
  match m with
  | ClassChar c' => (c =? c')%N
  | ClassWhiteSpace => is_white_space c
  end.

Definition atom_matches (a : atom) (c : code_unit) : bool :=
  match a with
  | PatternCharacter c' => (c =? c')%N
  | CharacterClass inverted members =>
      xorb inverted (existsb (fun m => class_atom_matches m c) members)
  end.

(** Whether the pattern matches a prefix of the input, [start] telling
    whether the input begins here.  A quantified atom is greedy and backs
    off one character at a time. *)
Fixpoint match_here (p : pattern) (start : bool) : jsstring -> bool :=
  match p with
  | [] => fun _ => true
  | AssertStart :: p' => fun s => start && match_here p' start s
  | AssertEnd :: p' =>
      fun s => match s with [] => match_here p' start [] | _ :: _ => false end
  | Atom a Once :: p' =>
      fun s =>
        match s with
        | c :: s' => atom_matches a c && match_here p' false s'
        | [] => false
        end
  | Atom a OneOrMore :: p' =>
      fix more (s : jsstring) : bool :=
        match s with
        | c :: s' => atom_matches a c && (more s' || match_here p' false s')
        | [] => false
        end
  end.

(** The search for a match at the successive positions of the input. *)
Fixpoint search (p : pattern) (start : bool) (s : jsstring) : bool :=
  match_here p start s
  || match s with
     | _ :: s' => search p false s'
     | [] => false
     end.

(** [re.test(s)] for a pattern without flags. *)
Definition test (p : pattern) (s : jsstring) : bool := search p true s.

End JS.

(* ================================================================== *)
(** * [src/Calculator.ts]                                              *)
(* ================================================================== *)

Module Calculator.
Import JS.

(** The instance: its one private field. *)
Record Calculator : Type := { value : float }.

(** A method body: it reads and writes the fields of [this], and completes
    normally or throws.  The fields are those at the point of the throw. *)
Definition method (A : Type) : Type := Calculator -> completion A * Calculator.

Definition ret {A : Type} (a : A) : method A := fun c => (Normal a, c).

Definition bind {A B : Type} (m : method A) (k : A -> method B) : method B :=
  fun c =>
    match m c with
    | (Normal a, c') => k a c'
    | (Throw e, c') => (Throw e, c')
    end.

Definition throw {A : Type} (e : JS.value) : method A := fun c => (Throw e, c).

Definition get_value : method float := fun c => (Normal (value c), c).

Definition set_value (v : float) : method unit :=
  fun _ => (Normal tt, {| value := v |}).

Notation "x <- m ;; k" := (bind m (fun x => k))
  (at level 61, m at next level, right associativity).
Notation "m ;; k" := (bind m (fun _ => k))
  (at level 61, right associativity).

(** What a chainable method returns: the instance it was called on. *)
Inductive this_type : Type := this.

(** [constructor(initialValue: number = 0)] *)
Definition constructor (initialValue : option float) : Calculator :=
  {| value := match initialValue with Some v => v | None => 0%float end |}.

Definition add (n : float) : method this_type :=
  v <- get_value ;; set_value (v + n)%float ;; ret this.

Definition subtract (n : float) : method this_type :=
  v <- get_value ;; set_value (v - n)%float ;; ret this.

Definition multiply (n : float) : method this_type :=
  v <- get_value ;; set_value (v * n)%float ;; ret this.

Definition divide (n : float) : method this_type :=
  if (n =? 0)%float then throw (new_Error (lit "Division by zero"))
  else v <- get_value ;; set_value (v / n)%float ;; ret this.

Definition getValue : method float := get_value.

Definition reset : method unit := set_value 0%float.

Definition setValue (n : float) : method this_type :=
  set_value n ;; ret this.

Definition isEven : method bool :=
  v <- get_value ;; ret (JS.rem v 2 =? 0)%float.

Definition isPositive : method bool :=
  v <- get_value ;; ret (0 <? v)%float.

(** The error [divide] throws. *)
Definition DivisionByZero : JS.value := new_Error (lit "Division by zero").

(** ** Calls from outside *)

(** A call of one of the methods, with its arguments. *)
Inductive call : Type :=
| Add (n : float)
| Subtract (n : float)
| Multiply (n : float)
| Divide (n : float)
| SetValue (n : float)
| Reset
| GetValue
| IsEven
| IsPositive.

Inductive result : Type :=
| RThis
| RVoid
| RNumber (n : float)
| RBoolean (b : bool).

Definition perform (k : call) : method result :=
  match k with
  | Add n => add n ;; ret RThis
  | Subtract n => subtract n ;; ret RThis
  | Multiply n => multiply n ;; ret RThis
  | Divide n => divide n ;; ret RThis
  | SetValue n => setValue n ;; ret RThis
  | Reset => reset ;; ret RVoid
  | GetValue => v <- getValue ;; ret (RNumber v)
  | IsEven => b <- isEven ;; ret (RBoolean b)
  | IsPositive => b <- isPositive ;; ret (RBoolean b)
  end.

(** A sequence of calls, each made whatever the previous ones returned (a
    caller that catches what they throw). *)
Fixpoint perform_all (ks : list call) (c : Calculator)
  : list (completion result) * Calculator :=
  match ks with
  | [] => ([], c)
  | k :: ks' =>
      let '(r, c') := perform k c in
      let '(rs, c'') := perform_all ks' c' in
      (r :: rs, c'')
  end.

Definition is_observer (k : call) : bool :=
  match k with
  | GetValue | IsEven | IsPositive => true
  | _ => false
  end.

(** [new Calculator().add(10).multiply(2).subtract(5).divide(3).getValue()] *)
Definition scenario : completion float * Calculator :=
  (add 10 ;; multiply 2 ;; subtract 5 ;; divide 3 ;; getValue)
    (constructor None).

(** A sequence of calls made one after the other, as the statements of one
    block are: a call that throws ends it, and what it threw is what the
    block throws. *)
Fixpoint sequence (ks : list call) : method unit :=
  match ks with
  | [] => ret tt
  | k :: ks' => perform k ;; sequence ks'
  end.

End Calculator.

(* ================================================================== *)
(** * [src/utils.ts]                                                   *)
(* ================================================================== *)

Module utils.
Import JS.

Definition add (a b : float) : float := (a + b)%float.

Definition subtract (a b : float) : float := (a - b)%float.

Definition multiply (a b : float) : float := (a * b)%float.

Section Host.

Variable shortest_decimal : float -> jsstring.

Local Notation "x <- m ;; k" := (and_then m (fun x => k))
  (at level 61, m at next level, right associativity).

Definition getErrorMessage (error : value) : completion value :=
  is_error <- instanceof_Error error ;;
  if is_error then message_of error
  else if type_tag_eqb (typeof error) TString then Normal error
  else if truthy error && type_tag_eqb (typeof error) TObject then
    has_message <- message_in error ;;
    if has_message then
      message <- message_of error ;;
      text <- String_ shortest_decimal message ;;
      Normal (VString text)
    else Normal (VString (lit "Unknown error"))
  else Normal (VString (lit "Unknown error")).

Variable unicode_upper : N -> list N.

Definition capitalize (str : jsstring) : jsstring :=
  if negb (string_truthy str) then str
  else toUpperCase unicode_upper (charAt str 0) ++ slice str 1.

End Host.

(** [/^[^\s@]+@[^\s@]+\.[^\s@]+$/] *)
Definition emailRegex : pattern :=
  [ AssertStart;
    Atom (CharacterClass true [ClassWhiteSpace; ClassChar 64%N]) OneOrMore;
    Atom (PatternCharacter 64%N) Once;
    Atom (CharacterClass true [ClassWhiteSpace; ClassChar 64%N]) OneOrMore;
    Atom (PatternCharacter 46%N) Once;
    Atom (CharacterClass true [ClassWhiteSpace; ClassChar 64%N]) OneOrMore;
    AssertEnd ].

Definition isValidEmail (email : jsstring) : bool := test emailRegex email.

End utils.

(* ================================================================== *)
(** * The upper case of Unicode                                        *)
(* ================================================================== *)

(** The mapping [String.prototype.toUpperCase] applies to each code point:
    the full upper-case mapping of the Unicode Character Database, version
    14.0 (the simple mappings of [UnicodeData.txt], and the unconditional
    ones of [SpecialCasing.txt] where a character has one), outside
    ASCII. *)
Module Unicode.

Local Open Scope N_scope.

(** A run of simple mappings [(source, target, count, step)]: the [count]
    code points [source], [source + step], ... map to [target],
    [target + step], ... *)
Definition run : Type := N * N * N * N.

Definition expand (r : run) : list (N * list N) :=
  let '(source, target, count, step) := r in
  map (fun k => (source + N.of_nat k * step, [target + N.of_nat k * step]))
      (seq 0 (N.to_nat count)).

Definition simple_runs : list run :=
  [ (0xB5, 0x39C, 1, 1); (0xE0, 0xC0, 23, 1); (0xF8, 0xD8, 7, 1);
    (0xFF, 0x178, 1, 1); (0x101, 0x100, 24, 2); (0x131, 0x49, 1, 1);
    (0x133, 0x132, 3, 2); (0x13A, 0x139, 8, 2); (0x14B, 0x14A, 23, 2);
    (0x17A, 0x179, 3, 2); (0x17F, 0x53, 1, 1); (0x180, 0x243, 1, 1);
    (0x183, 0x182, 2, 2); (0x188, 0x187, 1, 1); (0x18C, 0x18B, 1, 1);
    (0x192, 0x191, 1, 1); (0x195, 0x1F6, 1, 1); (0x199, 0x198, 1, 1);
    (0x19A, 0x23D, 1, 1); (0x19E, 0x220, 1, 1); (0x1A1, 0x1A0, 3, 2);
    (0x1A8, 0x1A7, 1, 1); (0x1AD, 0x1AC, 1, 1); (0x1B0, 0x1AF, 1, 1);
    (0x1B4, 0x1B3, 2, 2); (0x1B9, 0x1B8, 1, 1); (0x1BD, 0x1BC, 1, 1);
    (0x1BF, 0x1F7, 1, 1); (0x1C5, 0x1C4, 1, 1); (0x1C6, 0x1C4, 1, 1);
    (0x1C8, 0x1C7, 1, 1); (0x1C9, 0x1C7, 1, 1); (0x1CB, 0x1CA, 1, 1);
    (0x1CC, 0x1CA, 1, 1); (0x1CE, 0x1CD, 8, 2); (0x1DD, 0x18E, 1, 1);
    (0x1DF, 0x1DE, 9, 2); (0x1F2, 0x1F1, 1, 1); (0x1F3, 0x1F1, 1, 1);
    (0x1F5, 0x1F4, 1, 1); (0x1F9, 0x1F8, 20, 2); (0x223, 0x222, 9, 2);
    (0x23C, 0x23B, 1, 1); (0x23F, 0x2C7E, 2, 1); (0x242, 0x241, 1, 1);
    (0x247, 0x246, 5, 2); (0x250, 0x2C6F, 1, 1); (0x251, 0x2C6D, 1, 1);
    (0x252, 0x2C70, 1, 1); (0x253, 0x181, 1, 1); (0x254, 0x186, 1, 1);
    (0x256, 0x189, 2, 1); (0x259, 0x18F, 1, 1); (0x25B, 0x190, 1, 1);
    (0x25C, 0xA7AB, 1, 1); (0x260, 0x193, 1, 1); (0x261, 0xA7AC, 1, 1);
    (0x263, 0x194, 1, 1); (0x265, 0xA78D, 1, 1); (0x266, 0xA7AA, 1, 1);
    (0x268, 0x197, 1, 1); (0x269, 0x196, 1, 1); (0x26A, 0xA7AE, 1, 1);
    (0x26B, 0x2C62, 1, 1); (0x26C, 0xA7AD, 1, 1); (0x26F, 0x19C, 1, 1);
    (0x271, 0x2C6E, 1, 1); (0x272, 0x19D, 1, 1); (0x275, 0x19F, 1, 1);
    (0x27D, 0x2C64, 1, 1); (0x280, 0x1A6, 1, 1); (0x282, 0xA7C5, 1, 1);
    (0x283, 0x1A9, 1, 1); (0x287, 0xA7B1, 1, 1); (0x288, 0x1AE, 1, 1);
    (0x289, 0x244, 1, 1); (0x28A, 0x1B1, 2, 1); (0x28C, 0x245, 1, 1);
    (0x292, 0x1B7, 1, 1); (0x29D, 0xA7B2, 1, 1); (0x29E, 0xA7B0, 1, 1);
    (0x345, 0x399, 1, 1); (0x371, 0x370, 2, 2); (0x377, 0x376, 1, 1);
    (0x37B, 0x3FD, 3, 1); (0x3AC, 0x386, 1, 1); (0x3AD, 0x388, 3, 1);
    (0x3B1, 0x391, 17, 1); (0x3C2, 0x3A3, 1, 1); (0x3C3, 0x3A3, 9, 1);
    (0x3CC, 0x38C, 1, 1); (0x3CD, 0x38E, 2, 1); (0x3D0, 0x392, 1, 1);
    (0x3D1, 0x398, 1, 1); (0x3D5, 0x3A6, 1, 1); (0x3D6, 0x3A0, 1, 1);
    (0x3D7, 0x3CF, 1, 1); (0x3D9, 0x3D8, 12, 2); (0x3F0, 0x39A, 1, 1);
    (0x3F1, 0x3A1, 1, 1); (0x3F2, 0x3F9, 1, 1); (0x3F3, 0x37F, 1, 1);
    (0x3F5, 0x395, 1, 1); (0x3F8, 0x3F7, 1, 1); (0x3FB, 0x3FA, 1, 1);
    (0x430, 0x410, 32, 1); (0x450, 0x400, 16, 1); (0x461, 0x460, 17, 2);
    (0x48B, 0x48A, 27, 2); (0x4C2, 0x4C1, 7, 2); (0x4CF, 0x4C0, 1, 1);
    (0x4D1, 0x4D0, 48, 2); (0x561, 0x531, 38, 1); (0x10D0, 0x1C90, 43, 1);
    (0x10FD, 0x1CBD, 3, 1); (0x13F8, 0x13F0, 6, 1); (0x1C80, 0x412, 1, 1);
    (0x1C81, 0x414, 1, 1); (0x1C82, 0x41E, 1, 1); (0x1C83, 0x421, 2, 1);
    (0x1C85, 0x422, 1, 1); (0x1C86, 0x42A, 1, 1); (0x1C87, 0x462, 1, 1);
    (0x1C88, 0xA64A, 1, 1); (0x1D79, 0xA77D, 1, 1); (0x1D7D, 0x2C63, 1, 1);
    (0x1D8E, 0xA7C6, 1, 1); (0x1E01, 0x1E00, 75, 2); (0x1E9B, 0x1E60, 1, 1);
    (0x1EA1, 0x1EA0, 48, 2); (0x1F00, 0x1F08, 8, 1); (0x1F10, 0x1F18, 6, 1);
    (0x1F20, 0x1F28, 8, 1); (0x1F30, 0x1F38, 8, 1); (0x1F40, 0x1F48, 6, 1);
    (0x1F51, 0x1F59, 4, 2); (0x1F60, 0x1F68, 8, 1); (0x1F70, 0x1FBA, 2, 1);
    (0x1F72, 0x1FC8, 4, 1); (0x1F76, 0x1FDA, 2, 1); (0x1F78, 0x1FF8, 2, 1);
    (0x1F7A, 0x1FEA, 2, 1); (0x1F7C, 0x1FFA, 2, 1); (0x1FB0, 0x1FB8, 2, 1);
    (0x1FBE, 0x399, 1, 1); (0x1FD0, 0x1FD8, 2, 1); (0x1FE0, 0x1FE8, 2, 1);
    (0x1FE5, 0x1FEC, 1, 1); (0x214E, 0x2132, 1, 1); (0x2170, 0x2160, 16, 1);
    (0x2184, 0x2183, 1, 1); (0x24D0, 0x24B6, 26, 1); (0x2C30, 0x2C00, 48, 1);
    (0x2C61, 0x2C60, 1, 1); (0x2C65, 0x23A, 1, 1); (0x2C66, 0x23E, 1, 1);
    (0x2C68, 0x2C67, 3, 2); (0x2C73, 0x2C72, 1, 1); (0x2C76, 0x2C75, 1, 1);
    (0x2C81, 0x2C80, 50, 2); (0x2CEC, 0x2CEB, 2, 2); (0x2CF3, 0x2CF2, 1, 1);
    (0x2D00, 0x10A0, 38, 1); (0x2D27, 0x10C7, 1, 1); (0x2D2D, 0x10CD, 1, 1);
    (0xA641, 0xA640, 23, 2); (0xA681, 0xA680, 14, 2); (0xA723, 0xA722, 7, 2);
    (0xA733, 0xA732, 31, 2); (0xA77A, 0xA779, 2, 2); (0xA77F, 0xA77E, 5, 2);
    (0xA78C, 0xA78B, 1, 1); (0xA791, 0xA790, 2, 2); (0xA794, 0xA7C4, 1, 1);
    (0xA797, 0xA796, 10, 2); (0xA7B5, 0xA7B4, 8, 2); (0xA7C8, 0xA7C7, 2, 2);
    (0xA7D1, 0xA7D0, 1, 1); (0xA7D7, 0xA7D6, 2, 2); (0xA7F6, 0xA7F5, 1, 1);
    (0xAB53, 0xA7B3, 1, 1); (0xAB70, 0x13A0, 80, 1); (0xFF41, 0xFF21, 26, 1);
    (0x10428, 0x10400, 40, 1); (0x104D8, 0x104B0, 36, 1);
    (0x10597, 0x10570, 19, 2); (0x10598, 0x10571, 5, 2);
    (0x105A4, 0x1057D, 7, 2); (0x105B4, 0x1058D, 3, 2);
    (0x105BC, 0x10595, 1, 1); (0x10CC0, 0x10C80, 51, 1);
    (0x118C0, 0x118A0, 32, 1); (0x16E60, 0x16E40, 32, 1);
    (0x1E922, 0x1E900, 34, 1) ].

(** The characters whose upper case is more than one character. *)
Definition special_casing : list (N * list N) :=
  [ (0xDF, [0x53; 0x53]); (0x149, [0x2BC; 0x4E]); (0x1F0, [0x4A; 0x30C]);
    (0x390, [0x399; 0x308; 0x301]); (0x3B0, [0x3A5; 0x308; 0x301]);
    (0x587, [0x535; 0x552]); (0x1E96, [0x48; 0x331]); (0x1E97, [0x54; 0x308]);
    (0x1E98, [0x57; 0x30A]); (0x1E99, [0x59; 0x30A]); (0x1E9A, [0x41; 0x2BE]);
    (0x1F50, [0x3A5; 0x313]); (0x1F52, [0x3A5; 0x313; 0x300]);
    (0x1F54, [0x3A5; 0x313; 0x301]); (0x1F56, [0x3A5; 0x313; 0x342]);
    (0x1F80, [0x1F08; 0x399]); (0x1F81, [0x1F09; 0x399]);
    (0x1F82, [0x1F0A; 0x399]); (0x1F83, [0x1F0B; 0x399]);
    (0x1F84, [0x1F0C; 0x399]); (0x1F85, [0x1F0D; 0x399]);
    (0x1F86, [0x1F0E; 0x399]); (0x1F87, [0x1F0F; 0x399]);
    (0x1F88, [0x1F08; 0x399]); (0x1F89, [0x1F09; 0x399]);
    (0x1F8A, [0x1F0A; 0x399]); (0x1F8B, [0x1F0B; 0x399]);
    (0x1F8C, [0x1F0C; 0x399]); (0x1F8D, [0x1F0D; 0x399]);
    (0x1F8E, [0x1F0E; 0x399]); (0x1F8F, [0x1F0F; 0x399]);
    (0x1F90, [0x1F28; 0x399]); (0x1F91, [0x1F29; 0x399]);
    (0x1F92, [0x1F2A; 0x399]); (0x1F93, [0x1F2B; 0x399]);
    (0x1F94, [0x1F2C; 0x399]); (0x1F95, [0x1F2D; 0x399]);
    (0x1F96, [0x1F2E; 0x399]); (0x1F97, [0x1F2F; 0x399]);
    (0x1F98, [0x1F28; 0x399]); (0x1F99, [0x1F29; 0x399]);
    (0x1F9A, [0x1F2A; 0x399]); (0x1F9B, [0x1F2B; 0x399]);
    (0x1F9C, [0x1F2C; 0x399]); (0x1F9D, [0x1F2D; 0x399]);
    (0x1F9E, [0x1F2E; 0x399]); (0x1F9F, [0x1F2F; 0x399]);
    (0x1FA0, [0x1F68; 0x399]); (0x1FA1, [0x1F69; 0x399]);
    (0x1FA2, [0x1F6A; 0x399]); (0x1FA3, [0x1F6B; 0x399]);
    (0x1FA4, [0x1F6C; 0x399]); (0x1FA5, [0x1F6D; 0x399]);
    (0x1FA6, [0x1F6E; 0x399]); (0x1FA7, [0x1F6F; 0x399]);
    (0x1FA8, [0x1F68; 0x399]); (0x1FA9, [0x1F69; 0x399]);
    (0x1FAA, [0x1F6A; 0x399]); (0x1FAB, [0x1F6B; 0x399]);
    (0x1FAC, [0x1F6C; 0x399]); (0x1FAD, [0x1F6D; 0x399]);
    (0x1FAE, [0x1F6E; 0x399]); (0x1FAF, [0x1F6F; 0x399]);
    (0x1FB2, [0x1FBA; 0x399]); (0x1FB3, [0x391; 0x399]);
    (0x1FB4, [0x386; 0x399]); (0x1FB6, [0x391; 0x342]);
    (0x1FB7, [0x391; 0x342; 0x399]); (0x1FBC, [0x391; 0x399]);
    (0x1FC2, [0x1FCA; 0x399]); (0x1FC3, [0x397; 0x399]);
    (0x1FC4, [0x389; 0x399]); (0x1FC6, [0x397; 0x342]);
    (0x1FC7, [0x397; 0x342; 0x399]); (0x1FCC, [0x397; 0x399]);
    (0x1FD2, [0x399; 0x308; 0x300]); (0x1FD3, [0x399; 0x308; 0x301]);
    (0x1FD6, [0x399; 0x342]); (0x1FD7, [0x399; 0x308; 0x342]);
    (0x1FE2, [0x3A5; 0x308; 0x300]); (0x1FE3, [0x3A5; 0x308; 0x301]);
    (0x1FE4, [0x3A1; 0x313]); (0x1FE6, [0x3A5; 0x342]);
    (0x1FE7, [0x3A5; 0x308; 0x342]); (0x1FF2, [0x1FFA; 0x399]);
    (0x1FF3, [0x3A9; 0x399]); (0x1FF4, [0x38F; 0x399]);
    (0x1FF6, [0x3A9; 0x342]); (0x1FF7, [0x3A9; 0x342; 0x399]);
    (0x1FFC, [0x3A9; 0x399]); (0xFB00, [0x46; 0x46]); (0xFB01, [0x46; 0x49]);
    (0xFB02, [0x46; 0x4C]); (0xFB03, [0x46; 0x46; 0x49]);
    (0xFB04, [0x46; 0x46; 0x4C]); (0xFB05, [0x53; 0x54]);
    (0xFB06, [0x53; 0x54]); (0xFB13, [0x544; 0x546]);
    (0xFB14, [0x544; 0x535]); (0xFB15, [0x544; 0x53B]);
    (0xFB16, [0x54E; 0x546]); (0xFB17, [0x544; 0x53D]) ].

(** The whole table, one entry for each code point that is not its own
    upper case. *)
Definition upper_table : list (N * list N) :=
  Eval vm_compute in special_casing ++ flat_map expand simple_runs.

Fixpoint lookup (cp : N) (t : list (N * list N)) : option (list N) :=
  match t with
  | [] => None
  | (k, image) :: t' => if cp =? k then Some image else lookup cp t'
  end.

(** The mapping a table gives. *)
Definition mapping (t : list (N * list N)) (cp : N) : list N :=
  match lookup cp t with
  | Some image => image
  | None => [cp]
  end.

Definition to_upper : N -> list N := mapping upper_table.

Local Close Scope N_scope.

End Unicode.

(* ================================================================== *)
(** * The vocabulary of the specification                              *)
(* ================================================================== *)

Module Spec.
Import JS.

(** What [x === 0] tells about [x]: it is one of the two zeros. *)
Definition is_zero (x : float) : Prop := x = 0%float \/ x = (-0)%float.

(** [x] is [+Infinity] or a finite number above zero. *)
Definition strictly_positive (x : float) : Prop :=
  match Prim2SF x with
  | S754_finite false _ _ | S754_infinity false => True
  | _ => False
  end.

(** [x] is [-Infinity] or a finite number below zero. *)
Definition strictly_negative (x : float) : Prop :=
  match Prim2SF x with
  | S754_finite true _ _ | S754_infinity true => True
  | _ => False
  end.

(** An even integer: [e >= 1], or the mantissa is a multiple of [2^(1-e)]. *)
Definition even_shape (m : positive) (e : Z) : Prop :=
  (1 <= e \/ (e <= 0 /\ Zpos m mod 2 ^ (1 - e) = 0))%Z.

(** Whether a completion is a throw. *)
Definition throws {A : Type} (r : completion A) : Prop :=
  exists e, r = Throw e.

Definition Unknown_error : jsstring := lit "Unknown error".

Section Host.

Variable shortest_decimal : float -> jsstring.

(** The message converted to a string, as case (3) returns it. *)
Definition converted (message : value) : completion value :=
  match String_ shortest_decimal message with
  | Normal text => Normal (VString text)
  | Throw e => Throw e
  end.

(** The resolution order of [getErrorMessage], by what the value is: (1) a
    structured error gives its message, as it is; (2) a string is returned
    as it is; (3) an object that is not a function and has a [message]
    property gives that property, converted to a string; (4) anything else
    gives the fallback.  Where the value throws at what is asked of it,
    that is thrown. *)
Definition message_by_priority (error : value) : completion value :=
  match error with
  | VError message _ => Normal (VString message)
  | VString s => Normal (VString s)
  | VObject false properties _ =>
      match assoc (lit "message") properties with
      | Some message => converted message
      | None => Normal (VString Unknown_error)
      end
  | VExotic callable is_Error has_message message _ =>
      match is_Error with
      | Raises e => Throw e
      | Answers true => outcome message
      | Answers false =>
          if callable then Normal (VString Unknown_error)
          else
            match has_message with
            | Raises e => Throw e
            | Answers false => Normal (VString Unknown_error)
            | Answers true =>
                match message with
                | Raises e => Throw e
                | Answers m => converted m
                end
            end
      end
  | _ => Normal (VString Unknown_error)
  end.

(** A non-null object that is not a function: what case (3) looks into. *)
Definition plain_object (error : value) : Prop :=
  typeof error = TObject /\ error <> VNull.

(** What makes [getErrorMessage] throw, and what it then throws: one of
    the things it asks of the value throws. *)
Inductive fails_with : value -> value -> Prop :=
| fails_at_instanceof (error e : value) :
    instanceof_Error error = Throw e ->
    fails_with error e
| fails_at_the_message_of_an_error (error e : value) :
    instanceof_Error error = Normal true ->
    message_of error = Throw e ->
    fails_with error e
| fails_at_in (error e : value) :
    instanceof_Error error = Normal false ->
    plain_object error ->
    message_in error = Throw e ->
    fails_with error e
| fails_at_the_message (error e : value) :
    instanceof_Error error = Normal false ->
    plain_object error ->
    message_in error = Normal true ->
    message_of error = Throw e ->
    fails_with error e
| fails_at_the_conversion (error message e : value) :
    instanceof_Error error = Normal false ->
    plain_object error ->
    message_in error = Normal true ->
    message_of error = Normal message ->
    String_ shortest_decimal message = Throw e ->
    fails_with error e.

End Host.

(** A value made of data alone: not an exotic object. *)
Definition is_data (v : value) : bool :=
  match v with
  | VExotic _ _ _ _ _ => false
  | _ => true
  end.

(** Whether, by a table of upper cases, the upper case of every character
    listed begins with a character that is its own upper case. *)
Definition settles (t : list (N * list N)) : bool :=
  forallb
    (fun entry =>
       match flat_map utf16_encode (snd entry) with
       | u :: _ =>
           match toUpperCase (Unicode.mapping t) [u] with
           | [u'] => (u' =? u)%N
           | _ => false
           end
       | [] => false
       end)
    t.

(** A character that is neither white space nor [@]. *)
Definition plain_char (c : code_unit) : bool :=
  negb (is_white_space c) && negb (c =? 64)%N.

(** One or more plain characters. *)
Definition plain_run (s : jsstring) : Prop :=
  s <> [] /\ Forall (fun c => plain_char c = true) s.

(** The shape of an accepted address: a run, [@], a run, [.], a run, and
    nothing else. *)
Definition email_shape (s : jsstring) : Prop :=
  exists l d t : jsstring,
    s = l ++ [64%N] ++ d ++ [46%N] ++ t /\
    plain_run l /\ plain_run d /\ plain_run t.

(** A string all of whose elements are code units. *)
Definition well_formed (s : jsstring) : Prop :=
  Forall (fun u => (u < 65536)%N) s.

(** A table with one entry, the sharp s, whose upper case is [SS]. *)
Definition sharp_s_upper (cp : N) : list N :=
  if (cp =? 0xDF)%N then [0x53%N; 0x53%N] else [cp].

(** The upper case of an ASCII character. *)
Definition ascii_upper (c : code_unit) : code_unit :=
  if ((97 <=? c) && (c <=? 122))%N then (c - 32)%N else c.

(** A division by zero among the calls. *)
Definition divides_by_zero (ks : list Calculator.call) : Prop :=
  exists n, In (Calculator.Divide n) ks /\ is_zero n.

(** A table with one entry, the Deseret small letter long I (U+10428),
    whose upper case is U+10400. *)
Definition deseret_upper (cp : N) : list N :=
  if (cp =? 0x10428)%N then [0x10400%N] else [cp].

(** The number an integer denotes (itself, below [2^53] in magnitude). *)
Definition Number_of_Z (z : Z) : float :=
  SF2Prim (binary_normalize prec emax z 0 false).

End Spec.

(* ================================================================== *)
(** * Facts about binary64 numbers                                     *)
(* ================================================================== *)

Module Number.
Import JS Spec.

Lemma Prim2SF_zero : Prim2SF 0 = S754_zero false.
Proof. reflexivity. Qed.

Lemma Prim2SF_two : Prim2SF 2 = S754_finite false 4503599627370496 (-51).
Proof. reflexivity. Qed.

Lemma eqb_zero_spec (x : float) :
  (x =? 0)%float = true <-> exists s, Prim2SF x = S754_zero s.
Proof.
  rewrite eqb_spec, Prim2SF_zero.
  destruct (Prim2SF x) as [s|s| |s m e]; unfold SFeqb; simpl.
  - split; [eauto | reflexivity].
  - split; [destruct s; discriminate | intros [? ?]; discriminate].
  - split; [discriminate | intros [? ?]; discriminate].
  - split; [destruct s; discriminate | intros [? ?]; discriminate].
Qed.

Lemma eqb_zero_is_zero (x : float) : (x =? 0)%float = true <-> is_zero x.
Proof.
  rewrite eqb_zero_spec. unfold is_zero. split.
  - intros [s Hs]. rewrite <- (SF2Prim_Prim2SF x), Hs.
    destruct s; [right | left]; reflexivity.
  - intros [-> | ->]; eexists; reflexivity.
Qed.

Lemma ltb_zero_spec (x : float) :
  (0 <? x)%float = true <-> strictly_positive x.
Proof.
  rewrite ltb_spec, Prim2SF_zero. unfold strictly_positive.
  destruct (Prim2SF x) as [s|[|]| |[|] m e]; unfold SFltb; simpl;
    split; (discriminate || contradiction || reflexivity || exact (fun _ => I)).
Qed.

Lemma ltb_below_zero_spec (x : float) :
  (x <? 0)%float = true <-> strictly_negative x.
Proof.
  rewrite ltb_spec, Prim2SF_zero. unfold strictly_negative.
  destruct (Prim2SF x) as [s|[|]| |[|] m e]; unfold SFltb; simpl;
    split; (discriminate || contradiction || reflexivity || exact (fun _ => I)).
Qed.

Local Open Scope Z_scope.

(** ** Rounding a mantissa that needs none *)

Lemma digits2_pos_bounds (p : positive) :
  2 ^ (Zpos (digits2_pos p) - 1) <= Zpos p < 2 ^ Zpos (digits2_pos p).
Proof.
  induction p as [p IH|p IH|]; simpl digits2_pos.
  - rewrite Pos2Z.inj_succ.
    replace (Z.succ (Zpos (digits2_pos p)) - 1)
      with (Z.succ (Zpos (digits2_pos p) - 1)) by lia.
    rewrite !Z.pow_succ_r by lia. lia.
  - rewrite Pos2Z.inj_succ.
    replace (Z.succ (Zpos (digits2_pos p)) - 1)
      with (Z.succ (Zpos (digits2_pos p) - 1)) by lia.
    rewrite !Z.pow_succ_r by lia. lia.
  - simpl. lia.
Qed.

Lemma iter_xO_spec (m d : positive) :
  Zpos (Pos.iter xO m d) = Zpos m * 2 ^ Zpos d /\
  Zpos (digits2_pos (Pos.iter xO m d)) = Zpos (digits2_pos m) + Zpos d.
Proof.
  induction d as [|d IH] using Pos.peano_ind.
  - simpl. split; lia.
  - rewrite Pos.iter_succ. destruct IH as [IH1 IH2].
    rewrite Pos2Z.inj_succ, Z.pow_succ_r by lia. simpl digits2_pos.
    rewrite Pos2Z.inj_succ, Pos2Z.inj_xO. lia.
Qed.

Lemma shl_align_spec (m : positive) (e e' : Z) :
  e' <= e ->
  exists m', shl_align m e e' = (m', e') /\
             Zpos m' = Zpos m * 2 ^ (e - e') /\
             Zpos (digits2_pos m') = Zpos (digits2_pos m) + (e - e').
Proof.
  intros H. unfold shl_align.
  destruct (e' - e) as [|k|k] eqn:Hk.
  - assert (e' = e) by lia. subst e'. exists m. rewrite Z.sub_diag. simpl.
    repeat split; lia.
  - lia.
  - exists (Pos.iter xO m k). destruct (iter_xO_spec m k) as [H1 H2].
    replace (e - e') with (Zpos k) by lia. auto.
Qed.

Lemma valid_finite_bounds (s : bool) (m : positive) (e : Z) :
  valid_binary (S754_finite s m e) = true ->
  -1074 <= e <= 971 /\ Zpos m < 2 ^ 53.
Proof.
  unfold valid_binary, bounded, canonical_mantissa, fexp, SpecFloat.emin,
    prec, emax.
  intros H. apply andb_true_iff in H. destruct H as [H1 H2].
  apply Z.eqb_eq in H1. apply Z.leb_le in H2.
  assert (Zpos (digits2_pos m) <= 53) by lia.
  split; [lia|].
  apply Z.lt_le_trans with (2 ^ Zpos (digits2_pos m)).
  - apply digits2_pos_bounds.
  - apply Z.pow_le_mono_r; lia.
Qed.

Lemma binary_round_aux_canonical (s : bool) (m : positive) (e : Z) :
  valid_binary (S754_finite s m e) = true ->
  binary_round_aux prec emax s (Zpos m) e loc_Exact = S754_finite s m e.
Proof.
  simpl. unfold bounded, canonical_mantissa. intros H.
  apply andb_true_iff in H. destruct H as [H1 H2]. apply Z.eqb_eq in H1.
  unfold binary_round_aux, shr_fexp. cbn [Zdigits2]. rewrite H1, Z.sub_diag.
  cbn [shr shr_record_of_loc shr_m loc_of_shr_record round_nearest_even
       Zdigits2].
  rewrite H1, Z.sub_diag. cbn [shr shr_record_of_loc shr_m].
  rewrite H2. reflexivity.
Qed.

Lemma binary_round_small (s : bool) (p : positive) (e : Z) :
  Zpos p < 2 ^ 53 -> -1074 <= e <= 971 ->
  exists m' e', binary_round prec emax s p e = S754_finite s m' e' /\
                valid_binary (S754_finite s m' e') = true.
Proof.
  intros Hp He. unfold binary_round.
  set (fe := fexp prec emax (Zpos (digits2_pos p) + e)).
  assert (Hd : Zpos (digits2_pos p) <= 53).
  { destruct (Z_le_gt_dec (Zpos (digits2_pos p)) 53) as [|Hgt]; [assumption|].
    pose proof (digits2_pos_bounds p) as [Hlo _].
    assert (2 ^ 53 <= 2 ^ (Zpos (digits2_pos p) - 1))
      by (apply Z.pow_le_mono_r; lia).
    lia. }
  assert (Hfe : fe <= e /\ -1074 <= fe).
  { unfold fe, fexp, SpecFloat.emin, prec, emax. lia. }
  destruct (shl_align_spec p e fe (proj1 Hfe)) as [m' [Hs [Hm Hdg]]].
  rewrite Hs. exists m', fe.
  assert (Hv : valid_binary (S754_finite s m' fe) = true).
  { simpl. unfold bounded, canonical_mantissa. rewrite Hdg.
    replace (Zpos (digits2_pos p) + (e - fe) + fe)
      with (Zpos (digits2_pos p) + e) by lia.
    fold fe. rewrite Z.eqb_refl. simpl. apply Z.leb_le.
    unfold prec, emax. lia. }
  split; [|exact Hv]. apply binary_round_aux_canonical. exact Hv.
Qed.

(** ** Parity *)

Lemma cond_Zopp_even (s : bool) (a : Z) :
  (exists k, cond_Zopp s a = 2 * k) <-> a mod 2 = 0.
Proof.
  rewrite Z.mod_divide by lia. split.
  - intros [k Hk]. destruct s; unfold cond_Zopp in Hk.
    + exists (- k). lia.
    + exists k. lia.
  - intros [k Hk]. destruct s; unfold cond_Zopp.
    + exists (- k). lia.
    + exists k. lia.
Qed.

Lemma SFinteger_even_iff (s : bool) (m : positive) (e : Z) :
  (exists k, SFinteger (S754_finite s m e) = Some (2 * k)) <-> even_shape m e.
Proof.
  unfold SFinteger, even_shape.
  destruct (Z.leb_spec 0 e) as [He|He].
  - destruct (Z.eq_dec e 0) as [->|Hne].
    + rewrite Z.pow_0_r, Z.mul_1_r. change (2 ^ (1 - 0)) with 2.
      split.
      * intros [k Hk]. right. split; [lia|]. apply (cond_Zopp_even s).
        exists k. congruence.
      * intros [H|[_ H]]; [lia|]. apply (cond_Zopp_even s) in H.
        destruct H as [k Hk]. exists k. congruence.
    + split; [intros _; left; lia | intros _].
      assert (H : (Zpos m * 2 ^ e) mod 2 = 0).
      { replace e with (Z.succ (e - 1)) by lia. rewrite Z.pow_succ_r by lia.
        rewrite Z.mod_divide by lia. exists (Zpos m * 2 ^ (e - 1)). lia. }
      apply (cond_Zopp_even s) in H. destruct H as [k Hk]. exists k. congruence.
  - assert (Hq : 0 < 2 ^ (- e)) by (apply Z.pow_pos_nonneg; lia).
    assert (H2q : 2 ^ (1 - e) = 2 * 2 ^ (- e)).
    { replace (1 - e) with (Z.succ (- e)) by lia. apply Z.pow_succ_r. lia. }
    rewrite H2q. set (q := 2 ^ (- e)) in *.
    destruct (Z.eqb_spec (Zpos m mod q) 0) as [Hm|Hm].
    + apply Z.mod_divide in Hm; [|lia]. destruct Hm as [t Ht].
      rewrite Ht, Z.div_mul by lia. split.
      * intros [k Hk]. right. split; [lia|]. injection Hk as Hk.
        assert (Hev : t mod 2 = 0) by (apply (cond_Zopp_even s); eauto).
        apply Z.mod_divide in Hev; [|lia]. destruct Hev as [u Hu].
        apply Z.mod_divide; [lia|]. exists u. lia.
      * intros [H|[_ H]]; [lia|]. apply Z.mod_divide in H; [|lia].
        destruct H as [u Hu].
        assert (Hev : t mod 2 = 0).
        { apply Z.mod_divide; [lia|]. exists u. nia. }
        apply (cond_Zopp_even s) in Hev. destruct Hev as [k Hk].
        exists k. congruence.
    + split.
      * intros [k Hk]. discriminate.
      * intros [H|[_ H]]; [lia|]. exfalso. apply Hm.
        apply Z.mod_divide in H; [|lia]. destruct H as [u Hu].
        apply Z.mod_divide; [lia|]. exists (2 * u). lia.
Qed.

Lemma rem_two_zero_iff (m : positive) (e : Z) :
  (Zpos m * 2 ^ (e - Z.min e (-51)))
    mod (2 ^ 52 * 2 ^ (-51 - Z.min e (-51))) = 0
  <-> even_shape m e.
Proof.
  unfold even_shape. set (ez := Z.min e (-51)).
  assert (Hez : ez <= e /\ ez <= -51) by (unfold ez; lia).
  rewrite <- Z.pow_add_r by lia.
  destruct (Z_le_gt_dec 1 e) as [He|He].
  - split; [intros _; left; exact He | intros _].
    assert (ez = -51) by (unfold ez; lia).
    replace (e - ez) with ((e - 1) + (52 + (-51 - ez))) by lia.
    rewrite Z.pow_add_r by lia. rewrite Z.mul_assoc. apply Z.mod_mul.
    apply Z.pow_nonzero; lia.
  - replace (52 + (-51 - ez)) with ((1 - e) + (e - ez)) by lia.
    rewrite (Z.pow_add_r 2 (1 - e)) by lia.
    assert (Hc : 0 < 2 ^ (e - ez)) by (apply Z.pow_pos_nonneg; lia).
    assert (Hb : 0 < 2 ^ (1 - e)) by (apply Z.pow_pos_nonneg; lia).
    rewrite Z.mul_mod_distr_r by lia.
    split.
    + intros H. right. split; [lia|]. nia.
    + intros [H|[_ H]]; [lia|]. rewrite H. reflexivity.
Qed.

Lemma Prim2SF_SF2Prim_not_zero (s : bool) (m : positive) (e : Z) :
  valid_binary (S754_finite s m e) = true ->
  ~ exists s', Prim2SF (SF2Prim (S754_finite s m e)) = S754_zero s'.
Proof.
  intros Hv [s' Hs']. rewrite Prim2SF_SF2Prim in Hs' by exact Hv. discriminate.
Qed.

(** [x % 2 === 0] holds exactly of the even integers. *)
Lemma rem_two_is_zero (x : float) :
  (JS.rem x 2 =? 0)%float = true <-> exists k, integer_value x = Some (2 * k).
Proof.
  unfold JS.rem, integer_value. rewrite eqb_zero_spec, Prim2SF_two.
  pose proof (Prim2SF_valid x) as Hv.
  destruct (Prim2SF x) as [s|s| |s m e].
  - cbn [SFrem]. rewrite Prim2SF_SF2Prim by reflexivity. split.
    + intros _. exists 0. reflexivity.
    + intros _. exists s. reflexivity.
  - cbn [SFrem SFinteger]. rewrite Prim2SF_SF2Prim by reflexivity.
    split; intros [? ?]; discriminate.
  - cbn [SFrem SFinteger]. rewrite Prim2SF_SF2Prim by reflexivity.
    split; intros [? ?]; discriminate.
  - rewrite SFinteger_even_iff, <- rem_two_zero_iff.
    destruct (valid_finite_bounds _ _ _ Hv) as [He Hm].
    cbn [SFrem]. set (ez := Z.min e (-51)).
    assert (Hez : ez <= e /\ ez <= -51) by (unfold ez; lia).
    destruct (shl_align_spec m e ez (proj1 Hez)) as [X [HX [HXv _]]].
    destruct (shl_align_spec 4503599627370496 (-51) ez (proj2 Hez))
      as [Y [HY [HYv _]]].
    rewrite HX, HY. cbn [fst].
    change (Zpos 4503599627370496) with (2 ^ 52) in HYv.
    rewrite Z.rem_mod_nonneg by lia. rewrite <- HXv, <- HYv.
    pose proof (Z.mod_pos_bound (Zpos X) (Zpos Y) ltac:(lia)) as HR.
    pose proof (Z.mod_le (Zpos X) (Zpos Y) ltac:(lia) ltac:(lia)) as HRle.
    destruct (Zpos X mod Zpos Y) as [|r|r] eqn:Hr; [| |lia].
    + split; [reflexivity|]. intros _. exists s.
      destruct s; cbn [cond_Zopp Z.opp binary_normalize];
        rewrite Prim2SF_SF2Prim; reflexivity.
    + assert (Hsmall : Zpos r < 2 ^ 53).
      { destruct (Z.eq_dec ez (-51)) as [E|E].
        - rewrite E in HYv. change (2 ^ (-51 - -51)) with 1 in HYv. lia.
        - assert (ez = e) by (unfold ez in *; lia).
          replace (e - ez) with 0 in HXv by lia.
          rewrite Z.pow_0_r in HXv. lia. }
      assert (Hrange : -1074 <= ez <= 971) by (unfold ez; lia).
      destruct (binary_round_small s r ez Hsmall Hrange) as [m' [e' [Hb Hvb]]].
      assert (Hn : binary_normalize prec emax (cond_Zopp s (Zpos r)) ez s
                   = S754_finite s m' e').
      { destruct s; exact Hb. }
      rewrite Hn. split; [|discriminate].
      intros H. exfalso. exact (Prim2SF_SF2Prim_not_zero _ _ _ Hvb H).
Qed.

(** ** Symmetries of addition and subtraction *)

Lemma SFadd_comm (x y : spec_float) : SFadd prec emax x y = SFadd prec emax y x.
Proof.
  destruct x as [sx|sx| |sx mx ex], y as [sy|sy| |sy my ey];
    try reflexivity; try (destruct sx, sy; reflexivity).
  cbn [SFadd]. rewrite (Z.min_comm ex ey). f_equal. apply Z.add_comm.
Qed.

Lemma binary_round_opp (s : bool) (m : positive) (e : Z) :
  SFopp (binary_round prec emax s m e) = binary_round prec emax (negb s) m e.
Proof.
  unfold binary_round. destruct (shl_align _ _ _) as [mz ez].
  unfold binary_round_aux.
  destruct (shr_fexp _ _ _ _ _) as [mrs' e'].
  destruct (shr_fexp _ _ _ _ _) as [mrs'' e''].
  destruct (shr_m mrs''); try reflexivity.
  destruct (Z.leb _ _); reflexivity.
Qed.

(** [x - y] and [-(y - x)] are the same number, or both are zeros. *)
Lemma SFsub_antisym (x y : spec_float) :
  SFeqb (SFsub prec emax x y) (SFopp (SFsub prec emax y x))
  = SFeqb (SFsub prec emax x y) (SFsub prec emax x y).
Proof.
  destruct x as [sx|sx| |sx mx ex], y as [sy|sy| |sy my ey];
    try reflexivity; try (destruct sx, sy; reflexivity);
    try (destruct sx; reflexivity); try (destruct sy; reflexivity).
  cbn [SFsub]. rewrite (Z.min_comm ey ex).
  set (ez := Z.min ex ey).
  set (u := cond_Zopp sx (Zpos (fst (shl_align mx ex ez)))).
  set (v := cond_Zopp sy (Zpos (fst (shl_align my ey ez)))).
  replace (v - u)%Z with (- (u - v))%Z by lia.
  destruct (u - v)%Z as [|p|p]; cbn [Z.opp binary_normalize].
  - reflexivity.
  - rewrite (binary_round_opp true p ez). reflexivity.
  - rewrite (binary_round_opp false p ez). reflexivity.
Qed.

Lemma add_comm (a b : float) : (a + b = b + a)%float.
Proof.
  apply Prim2SF_inj. rewrite !add_spec. apply SFadd_comm.
Qed.

Lemma eqb_self (x : float) : (x =? x)%float = negb (is_nan x).
Proof. unfold is_nan. rewrite negb_involutive. reflexivity. Qed.

Lemma sub_antisym (a b : float) :
  (a - b =? - (b - a))%float = negb (is_nan (a - b)%float).
Proof.
  rewrite <- eqb_self, !eqb_spec, opp_spec, !sub_spec. apply SFsub_antisym.
Qed.

Local Close Scope Z_scope.

End Number.

(* ================================================================== *)
(** * The accumulator                                                  *)
(* ================================================================== *)

Module CalculatorSpec.
Import JS Calculator Spec Number.

Lemma perform_divide (n : float) (c : Calculator) :
  perform (Divide n) c =
  if (n =? 0)%float then (Throw DivisionByZero, c)
  else (Normal RThis, {| value := (value c / n)%float |}).
Proof.
  unfold perform, divide, bind. destruct (n =? 0)%float; reflexivity.
Qed.

Lemma divide_cases (n : float) (c : Calculator) :
  divide n c =
  if (n =? 0)%float then (Throw DivisionByZero, c)
  else (Normal this, {| value := (value c / n)%float |}).
Proof.
  unfold divide. destruct (n =? 0)%float; reflexivity.
Qed.

(** C1.  [divide] throws exactly when its divisor is zero ([n === 0], that
    is [n] is [0] or [-0]); what it throws is the division-by-zero error and
    the register is as it was.  With any other divisor it completes
    normally.  No other call throws: whatever the method and its argument,
    a call that throws is a [divide] by zero.  (The constructor is a total
    function.) *)
Theorem C1_divide_by_zero_is_the_only_failure :
  forall c : Calculator,
    (forall n, is_zero n <-> divide n c = (Throw DivisionByZero, c)) /\
    (forall n, ~ is_zero n <->
               divide n c = (Normal this, {| value := value c / n |})) /\
    (forall k, throws (fst (perform k c)) <->
               exists n, k = Divide n /\ is_zero n) /\
    (forall k, ~ throws (fst (perform k c)) <->
               exists r c', perform k c = (Normal r, c')) /\
    value (constructor None) = 0%float /\
    (forall v, value (constructor (Some v)) = v).
Proof.
  intros c. split; [|split; [|split; [|split; [|split]]]].
  - intros n. rewrite <- eqb_zero_is_zero, divide_cases.
    destruct (n =? 0)%float; split; try reflexivity; discriminate.
  - intros n. rewrite <- eqb_zero_is_zero, divide_cases.
    destruct (n =? 0)%float; split; intros H;
      try reflexivity; try discriminate;
      exfalso; apply H; reflexivity.
  - intros k. split.
    + intros [e He]. destruct k; try discriminate He.
      exists n. split; [reflexivity|].
      rewrite perform_divide in He. apply eqb_zero_is_zero.
      destruct (n =? 0)%float; [reflexivity | discriminate He].
    + intros [n [-> Hn]]. rewrite perform_divide.
      apply eqb_zero_is_zero in Hn. rewrite Hn. eexists; reflexivity.
  - intros k. unfold throws.
    destruct (perform k c) as [[r|e] c'] eqn:E; cbn [fst]; split.
    + intros _. eauto.
    + intros _ [e He]. discriminate He.
    + intros H. exfalso. apply H. eauto.
    + intros [r [c'' H]]. discriminate H.
  - reflexivity.
  - reflexivity.
Qed.

(** C6.  [isPositive] returns, without throwing, [true] exactly when the
    value is strictly greater than zero; it returns [false] for both zeros
    and for every negative value. *)
Theorem C6_isPositive_strictly_positive :
  forall c : Calculator,
    exists b : bool,
      isPositive c = (Normal b, c) /\
      (b = true <-> strictly_positive (value c)) /\
      (is_zero (value c) -> b = false) /\
      (strictly_negative (value c) -> b = false).
Proof.
  intros c. exists (0 <? value c)%float. split; [reflexivity|].
  split; [apply ltb_zero_spec|]. split.
  - intros Hz. apply not_true_is_false. rewrite ltb_zero_spec.
    unfold strictly_positive. destruct Hz as [-> | ->]; exact (fun H => H).
  - intros Hn. apply not_true_is_false. rewrite ltb_zero_spec.
    revert Hn. unfold strictly_positive, strictly_negative.
    destruct (Prim2SF (value c)) as [s|[|]| |[|] m e]; tauto.
Qed.

(** C8.  From a fresh accumulator, [add(10)], [multiply(2)], [subtract(5)]
    and [divide(3)] complete normally and leave [getValue()] within 0.01 of
    5 (it is 5). *)
Theorem C8_scenario :
  exists v : float,
    scenario = (Normal v, {| value := v |}) /\
    (abs (v - 5) <? 0.01)%float = true /\
    v = 5%float.
Proof.
  exists 5%float. repeat split.
Qed.

Lemma perform_observer (k : call) (c : Calculator) :
  is_observer k = true -> snd (perform k c) = c.
Proof.
  destruct k; simpl; intros H; try discriminate H; reflexivity.
Qed.

(** C9.  [getValue], [isEven] and [isPositive], called any number of times
    in any order, leave the accumulator as it was, so that a later
    [getValue()] returns what it returned before. *)
Theorem C9_observers_do_not_modify :
  forall (ks : list call) (c : Calculator),
    forallb is_observer ks = true ->
    snd (perform_all ks c) = c /\
    getValue (snd (perform_all ks c)) = getValue c.
Proof.
  intros ks c H.
  assert (Hs : snd (perform_all ks c) = c).
  { revert c. induction ks as [|k ks IH]; intros c; [reflexivity|].
    simpl in H. apply andb_true_iff in H. destruct H as [Hk Hks].
    simpl. pose proof (perform_observer k c Hk) as Hp.
    destruct (perform k c) as [r c1]. simpl in Hp. subst c1.
    specialize (IH Hks c).
    destruct (perform_all ks c) as [rs c2]. exact IH. }
  split; [exact Hs | rewrite Hs; reflexivity].
Qed.

Lemma C9_observers_witness :
  forallb is_observer [IsEven; GetValue; IsPositive; IsEven] = true /\
  snd (perform_all [IsEven; GetValue; IsPositive; IsEven]
                   {| value := 7 |}) = {| value := 7 |} /\
  getValue (snd (perform_all [IsEven; GetValue; IsPositive; IsEven]
                             {| value := 7 |}))
  = getValue {| value := 7 |}.
Proof.
  split; [reflexivity|].
  apply (@C9_observers_do_not_modify [IsEven; GetValue; IsPositive; IsEven]
           {| value := 7 |}).
  reflexivity.
Defined.

(** C5.  [isEven] returns, without throwing, [true] exactly when the value
    modulo 2 is zero, which is when the value is an even integer: zero, a
    positive or a negative one.  It returns [false] for every odd integer
    (and for what is no integer at all). *)
Theorem C5_isEven_even_integers :
  forall c : Calculator,
    exists b : bool,
      isEven c = (Normal b, c) /\
      (b = true <-> (JS.rem (value c) 2 =? 0)%float = true) /\
      (b = true <-> exists k : Z, integer_value (value c) = Some (2 * k)%Z) /\
      (forall k : Z, integer_value (value c) = Some (2 * k + 1)%Z -> b = false).
Proof.
  intros c. exists (JS.rem (value c) 2 =? 0)%float.
  split; [reflexivity|]. split; [reflexivity|]. split.
  - apply rem_two_is_zero.
  - intros k Hk. apply not_true_is_false. rewrite rem_two_is_zero.
    intros [k' Hk']. rewrite Hk in Hk'.
    assert (E : (2 * k + 1 = 2 * k')%Z) by congruence. lia.
Qed.

(** [isEven] on the values the specification names. *)
Example isEven_examples :
  map (fun v => fst (isEven {| value := v |}))
      [0; 2; 10; -4; -2; 1; 3; -3; 0.5; infinity; nan]%float
  = map Normal
      [true; true; true; true; true; false; false; false; false; false; false].
Proof. vm_compute. reflexivity. Qed.

End CalculatorSpec.

(* ================================================================== *)
(** * The helpers                                                      *)
(* ================================================================== *)

Module UtilsSpec.
Import JS utils Spec Number.

(** ** [add] and [subtract] *)

(** C7, as the code has it.  [add(a, b)] and [add(b, a)] are the same
    number, and [subtract(a, b)] and [-subtract(b, a)] are equal, whenever
    the sum, or the difference, is a number; when it is [NaN] the comparison
    with [==] is false, as it is of [NaN] with anything. *)
Theorem C7_add_commutes_subtract_antisymmetric :
  forall a b : float,
    add a b = add b a /\
    (add a b =? add b a)%float = negb (is_nan (add a b)) /\
    (subtract a b =? - subtract b a)%float = negb (is_nan (subtract a b)).
Proof.
  intros a b. unfold add, subtract. split; [apply add_comm|]. split.
  - rewrite <- (add_comm a b). apply eqb_self.
  - apply sub_antisym.
Qed.

(** C7 as stated fails where the sum is not a number:
    [add(Infinity, -Infinity) == add(-Infinity, Infinity)] is [false]. *)
Lemma C7_counterexample :
  ~ ((add infinity neg_infinity =? add neg_infinity infinity)%float = true /\
     (subtract infinity neg_infinity
      =? - subtract neg_infinity infinity)%float = true).
Proof.
  intros [H _]. vm_compute in H. discriminate H.
Qed.

(** ** [getErrorMessage] *)

Section GetErrorMessage.

Variable shortest_decimal : float -> jsstring.

Lemma getErrorMessage_by_priority (error : value) :
  getErrorMessage shortest_decimal error
  = message_by_priority shortest_decimal error.
Proof.
  unfold getErrorMessage, message_by_priority, converted.
  destruct error as [| |b|n|z|s|d|m str|callable ps str
                    |callable [[|]|e] [[|]|e'] [m|e''] str];
    try reflexivity;
    try (cbn; rewrite andb_false_r; reflexivity);
    try (destruct callable; reflexivity).
  destruct callable; [reflexivity|]. cbn.
  destruct (assoc _ ps); reflexivity.
Qed.

(** Of a structured error the message is returned as it is read. *)
Lemma getErrorMessage_of_an_error (error : value) :
  instanceof_Error error = Normal true ->
  getErrorMessage shortest_decimal error = message_of error.
Proof.
  intros H. unfold getErrorMessage. rewrite H. reflexivity.
Qed.

(** What is neither a structured error nor a string nor a plain object
    gives the fallback. *)
Lemma getErrorMessage_fallback (error : value) :
  instanceof_Error error = Normal false ->
  typeof error <> TString ->
  ~ plain_object error ->
  getErrorMessage shortest_decimal error = Normal (VString Unknown_error).
Proof.
  intros H Hs Ho. unfold getErrorMessage. rewrite H. cbn [and_then].
  destruct (typeof error) eqn:Ht; try congruence; cbn [type_tag_eqb];
    rewrite ?andb_false_r; try reflexivity.
  destruct error; try discriminate Ht; try reflexivity;
    exfalso; apply Ho; split; try exact Ht; discriminate.
Qed.

(** A plain object that is not a structured error is asked for its
    message. *)
Lemma getErrorMessage_of_a_plain_object (error : value) :
  instanceof_Error error = Normal false ->
  plain_object error ->
  getErrorMessage shortest_decimal error =
  and_then (message_in error)
    (fun has_message =>
       if has_message
       then and_then (message_of error)
              (fun message =>
                 and_then (String_ shortest_decimal message)
                   (fun text => Normal (VString text)))
       else Normal (VString Unknown_error)).
Proof.
  intros H [Ht Hn]. unfold getErrorMessage. rewrite H, Ht. cbn [and_then].
  destruct error; try discriminate Ht; try congruence; reflexivity.
Qed.

Lemma getErrorMessage_throws_iff (error e : value) :
  getErrorMessage shortest_decimal error = Throw e
  <-> fails_with shortest_decimal error e.
Proof.
  split.
  - intros H.
    destruct (instanceof_Error error) as [[|]|e0] eqn:Hi.
    + rewrite (getErrorMessage_of_an_error error Hi) in H.
      apply fails_at_the_message_of_an_error; assumption.
    + assert (Ho : plain_object error).
      { unfold plain_object.
        destruct error as [| |b|n|z|s|d|m str|[|] ps str|[|] ie hm mg str];
          try (cbn in H; rewrite ?andb_false_r in H; discriminate H);
          try (split; [reflexivity | discriminate]).
        all: unfold getErrorMessage in H; rewrite Hi in H; discriminate H. }
      rewrite (getErrorMessage_of_a_plain_object error Hi Ho) in H.
      destruct (message_in error) as [[|]|e1] eqn:Hin; cbn [and_then] in H.
      * destruct (message_of error) as [m|e2] eqn:Hm; cbn [and_then] in H.
        -- destruct (String_ shortest_decimal m) as [t|e3] eqn:Hc;
             cbn [and_then] in H; [discriminate H|].
           injection H as <-.
           apply (fails_at_the_conversion shortest_decimal error m e3);
             assumption.
        -- injection H as <-. apply fails_at_the_message; assumption.
      * discriminate H.
      * injection H as <-. apply fails_at_in; assumption.
    + unfold getErrorMessage in H. rewrite Hi in H. cbn [and_then] in H.
      injection H as <-. apply fails_at_instanceof. exact Hi.
  - intros H. destruct H as [error e Hi|error e Hi Hm|error e Hi Ho Hin
                            |error e Hi Ho Hin Hm|error m e Hi Ho Hin Hm Hc].
    + unfold getErrorMessage. rewrite Hi. reflexivity.
    + rewrite (getErrorMessage_of_an_error error Hi). exact Hm.
    + rewrite (getErrorMessage_of_a_plain_object error Hi Ho), Hin.
      reflexivity.
    + rewrite (getErrorMessage_of_a_plain_object error Hi Ho), Hin, Hm.
      reflexivity.
    + rewrite (getErrorMessage_of_a_plain_object error Hi Ho), Hin, Hm.
      cbn [and_then]. rewrite Hc. reflexivity.
Qed.

Lemma getErrorMessage_returns (error v : value) :
  getErrorMessage shortest_decimal error = Normal v ->
  (exists s, v = VString s) \/
  (instanceof_Error error = Normal true /\ message_of error = Normal v).
Proof.
  intros H. rewrite getErrorMessage_by_priority in H.
  unfold message_by_priority, converted in H.
  destruct error as [| |b|n|z|s|d|m str|callable ps str
                    |callable [[|]|e] [[|]|e'] [m|e''] str];
    try destruct callable; cbn in H;
    repeat match type of H with
           | context [assoc ?k ?ps] => destruct (assoc k ps)
           | context [String_ ?sd ?m] => destruct (String_ sd m)
           end;
    first [ discriminate H
          | injection H as <-; left; eexists; reflexivity
          | right; split; [reflexivity | exact H] ].
Qed.

(** Values made of data alone throw at nothing but the conversion of the
    message. *)
Lemma getErrorMessage_of_data (error e : value) :
  is_data error = true ->
  getErrorMessage shortest_decimal error = Throw e ->
  exists message,
    plain_object error /\ message_of error = Normal message /\
    String_ shortest_decimal message = Throw e.
Proof.
  intros Hd H. apply getErrorMessage_throws_iff in H.
  destruct H as [error e Hi|error e Hi Hm|error e Hi Ho Hin
                |error e Hi Ho Hin Hm|error m e Hi Ho Hin Hm Hc].
  - destruct error; discriminate.
  - destruct error; discriminate.
  - destruct Ho as [Ht Hn].
    destruct error; try discriminate; congruence.
  - destruct Ho as [Ht Hn].
    destruct error; try discriminate; congruence.
  - eauto.
Qed.

(** C2, as the code has it.  [getErrorMessage] follows the resolution
    order: a structured error gives its message, a string itself, an object
    (non-null, not a function) with a [message] property that property
    converted to a string, anything else the fallback.  The first case has
    priority and returns the message as it is read, converted to nothing:
    what is returned is a string unless it is the message of a structured
    error that is not one.  It throws exactly when something it asks of
    the value throws ([instanceof Error], ["message" in], the reading of
    the message, its conversion to a string), and throws what that threw;
    of values made of data alone only the conversion can throw. *)
Theorem C2_getErrorMessage_resolution :
  (forall error : value,
      getErrorMessage shortest_decimal error
      = message_by_priority shortest_decimal error /\
      (instanceof_Error error = Normal true ->
       getErrorMessage shortest_decimal error = message_of error) /\
      (forall e, getErrorMessage shortest_decimal error = Throw e
                 <-> fails_with shortest_decimal error e) /\
      (forall v, getErrorMessage shortest_decimal error = Normal v ->
                 (exists s, v = VString s) \/
                 (instanceof_Error error = Normal true /\
                  message_of error = Normal v)) /\
      (is_data error = true ->
       forall e, getErrorMessage shortest_decimal error = Throw e ->
                 exists message,
                   plain_object error /\
                   message_of error = Normal message /\
                   String_ shortest_decimal message = Throw e)) /\
  getErrorMessage shortest_decimal
    (VObject false [(lit "message", VNumber 404)]
       (Some (lit "[object Object]")))
  = Normal (VString (lit "404")) /\
  getErrorMessage shortest_decimal VNull = Normal (VString Unknown_error) /\
  getErrorMessage shortest_decimal VUndefined
  = Normal (VString Unknown_error) /\
  getErrorMessage shortest_decimal (VNumber 123)
  = Normal (VString Unknown_error) /\
  getErrorMessage shortest_decimal
    (VObject false [] (Some (lit "[object Object]")))
  = Normal (VString Unknown_error).
Proof.
  split; [|repeat split].
  intros error.
  split; [apply getErrorMessage_by_priority|].
  split; [apply getErrorMessage_of_an_error|].
  split; [intros e; apply getErrorMessage_throws_iff|].
  split; [intros v; apply getErrorMessage_returns|].
  intros Hd e. apply getErrorMessage_of_data. exact Hd.
Qed.

(** The cases the specification lists, and what decides between the first
    case and the third. *)
Example getErrorMessage_examples :
  getErrorMessage shortest_decimal (new_Error (lit "X"))
  = Normal (VString (lit "X")) /\
  getErrorMessage shortest_decimal (VString (lit "Y"))
  = Normal (VString (lit "Y")) /\
  getErrorMessage shortest_decimal
    (VObject false [(lit "message", VString (lit "Custom error"))]
       (Some (lit "[object Object]")))
  = Normal (VString (lit "Custom error")) /\
  getErrorMessage shortest_decimal
    (VExotic false (Answers true) (Answers true) (Answers (VNumber 42))
       (Answers (lit "Error: 42")))
  = Normal (VNumber 42) /\
  getErrorMessage shortest_decimal
    (VExotic false (Answers false) (Answers true) (Answers (VNumber 42))
       (Answers (lit "[object Object]")))
  = Normal (VString (lit "42")) /\
  getErrorMessage shortest_decimal
    (VExotic true (Answers true) (Answers true)
       (Answers (VString (lit "callable"))) (Answers (lit "f")))
  = Normal (VString (lit "callable")) /\
  getErrorMessage shortest_decimal
    (VExotic true (Answers false) (Answers true)
       (Answers (VString (lit "callable"))) (Answers (lit "f")))
  = Normal (VString Unknown_error) /\
  getErrorMessage shortest_decimal
    (VExotic false (Answers false) (Answers true)
       (Raises (VString (lit "getter"))) (Answers (lit "[object Object]")))
  = Throw (VString (lit "getter")).
Proof. repeat split. Qed.

End GetErrorMessage.

(** C2 as stated fails: [getErrorMessage({ message: Object.create(null) })]
    throws, the conversion of the property to a string raising a
    [TypeError]. *)
Lemma C2_counterexample :
  ~ (forall (shortest_decimal : float -> jsstring) (error : value),
       exists s,
         getErrorMessage shortest_decimal error = Normal (VString s)).
Proof.
  intros H.
  destruct (H (fun _ => [])
              (VObject false [(lit "message", VObject false [] None)]
                 (Some (lit "[object Object]")))) as [s Hs].
  discriminate Hs.
Qed.

(** ** [isValidEmail] *)

Lemma match_here_more (a : atom) (p : pattern) (st : bool) (c : code_unit)
      (s : jsstring) :
  match_here (Atom a OneOrMore :: p) st (c :: s)
  = atom_matches a c
    && (match_here (Atom a OneOrMore :: p) st s || match_here p false s).
Proof. reflexivity. Qed.

(** A quantified atom takes a non-empty run of characters it matches and
    leaves the rest to the terms that follow. *)
Lemma match_here_OneOrMore (a : atom) (p : pattern) (st : bool) (s : jsstring) :
  match_here (Atom a OneOrMore :: p) st s = true <->
  exists u v, s = u ++ v /\ u <> [] /\
              Forall (fun c => atom_matches a c = true) u /\
              match_here p false v = true.
Proof.
  induction s as [|c s IH].
  - split; [discriminate|].
    intros [u [v [Huv [Hu _]]]]. destruct u; [congruence | discriminate Huv].
  - rewrite match_here_more, andb_true_iff, orb_true_iff, IH. split.
    + intros [Hc [[u [v [-> [Hu [Hall Hv]]]]] | Hv]].
      * exists (c :: u), v. repeat split; auto. discriminate.
      * exists [c], s. repeat split; auto. discriminate.
    + intros [u [v [Huv [Hu [Hall Hv]]]]].
      destruct u as [|c' u]; [congruence|].
      injection Huv as <- ->. inversion Hall as [|? ? Hc Hall']; subst.
      split; [exact Hc|].
      destruct u as [|c'' u]; [right; exact Hv|].
      left. exists (c'' :: u), v. repeat split; auto. discriminate.
Qed.

Lemma match_here_Once (a : atom) (p : pattern) (st : bool) (s : jsstring) :
  match_here (Atom a Once :: p) st s = true <->
  exists c v, s = c :: v /\ atom_matches a c = true /\
              match_here p false v = true.
Proof.
  destruct s as [|c s]; cbn [match_here].
  - split; [discriminate | intros [c [v [H _]]]; discriminate H].
  - rewrite andb_true_iff. split.
    + intros [Hc Hv]. eauto.
    + intros [c' [v [H [Hc Hv]]]]. injection H as <- <-. auto.
Qed.

Lemma match_here_AssertEnd (st : bool) (s : jsstring) :
  match_here [AssertEnd] st s = true <-> s = [].
Proof.
  destruct s; cbn; split; congruence.
Qed.

(** Anchored at its start, a pattern matches at the first position or
    nowhere. *)
Lemma search_anchored (p : pattern) (s : jsstring) :
  search (AssertStart :: p) false s = false.
Proof.
  induction s as [|c s IH]; [reflexivity|].
  cbn [search]. rewrite IH. reflexivity.
Qed.

Lemma test_anchored (p : pattern) (s : jsstring) :
  test (AssertStart :: p) s = match_here p true s.
Proof.
  unfold test. destruct s as [|c s]; cbn [search].
  - cbn [match_here andb]. apply orb_false_r.
  - rewrite search_anchored. cbn [match_here andb]. apply orb_false_r.
Qed.

Lemma class_is_plain_char (c : code_unit) :
  atom_matches (CharacterClass true [ClassWhiteSpace; ClassChar 64%N]) c
  = plain_char c.
Proof.
  unfold plain_char. cbn. rewrite orb_false_r.
  destruct (is_white_space c), (c =? 64)%N; reflexivity.
Qed.

Lemma class_run (u : jsstring) :
  u <> [] /\
  Forall (fun c => atom_matches
                     (CharacterClass true [ClassWhiteSpace; ClassChar 64%N]) c
                   = true) u
  <-> plain_run u.
Proof.
  unfold plain_run. rewrite !Forall_forall.
  split; intros [Hu H]; (split; [exact Hu|]); intros c Hc;
    [rewrite <- class_is_plain_char | rewrite class_is_plain_char]; auto.
Qed.

(** C3.  [isValidEmail] accepts exactly the strings made of a run of one
    or more characters that are neither white space nor [@], an [@], a
    second such run, a [.], and a third such run, with nothing before or
    after.  (A space is a character of the class [\s].) *)
Theorem C3_isValidEmail_shape :
  (forall text : jsstring, isValidEmail text = true <-> email_shape text) /\
  isValidEmail (lit "user@example.com") = true /\
  isValidEmail (lit "user@example") = false /\
  isValidEmail (lit "user @example.com") = false /\
  isValidEmail (lit "") = false.
Proof.
  split; [|repeat split].
  intros text. unfold isValidEmail, emailRegex, email_shape.
  rewrite test_anchored, match_here_OneOrMore. split.
  - intros [l [v1 [-> [Hl [Hlall H1]]]]].
    apply match_here_Once in H1. destruct H1 as [c1 [v2 [-> [Hc1 H2]]]].
    apply match_here_OneOrMore in H2.
    destruct H2 as [d [v3 [-> [Hd [Hdall H3]]]]].
    apply match_here_Once in H3. destruct H3 as [c2 [v4 [-> [Hc2 H4]]]].
    apply match_here_OneOrMore in H4.
    destruct H4 as [t [v5 [-> [Ht [Htall H5]]]]].
    apply match_here_AssertEnd in H5. subst v5.
    cbn in Hc1, Hc2. apply N.eqb_eq in Hc1, Hc2. subst c1 c2.
    exists l, d, t. rewrite app_nil_r.
    repeat split; try assumption; apply class_run; auto.
  - intros [l [d [t [-> [Hl [Hd Ht]]]]]].
    apply class_run in Hl, Hd, Ht.
    exists l, ([64%N] ++ d ++ [46%N] ++ t).
    split; [reflexivity|]. split; [apply Hl|]. split; [apply Hl|].
    apply match_here_Once. exists 64%N, (d ++ [46%N] ++ t).
    split; [reflexivity|]. split; [reflexivity|].
    apply match_here_OneOrMore. exists d, ([46%N] ++ t).
    split; [reflexivity|]. split; [apply Hd|]. split; [apply Hd|].
    apply match_here_Once. exists 46%N, t.
    split; [reflexivity|]. split; [reflexivity|].
    apply match_here_OneOrMore. exists t, [].
    split; [symmetry; apply app_nil_r|]. split; [apply Ht|].
    split; [apply Ht | reflexivity].
Qed.

(** The other addresses of the test suite. *)
Example isValidEmail_examples :
  map isValidEmail
      [lit "test.user@example.co.uk"; lit "user+tag@example.com";
       lit "invalid"; lit "@example.com"; lit "user@"]
  = [true; true; false; false; false].
Proof. reflexivity. Qed.

(** ** [capitalize] *)

Section Capitalize.

Variable unicode_upper : N -> list N.

Lemma capitalize_cons (c : code_unit) (rest : jsstring) :
  capitalize unicode_upper (c :: rest) = toUpperCase unicode_upper [c] ++ rest.
Proof. reflexivity. Qed.

(** C4.  [capitalize] returns the empty string as it is and, of a string
    that is not empty, the upper case of the first character followed by
    the other characters as they are. *)
Theorem C4_capitalize_first_character :
  capitalize unicode_upper [] = [] /\
  (forall (c : code_unit) (rest : jsstring),
      capitalize unicode_upper (c :: rest)
      = toUpperCase unicode_upper [c] ++ rest) /\
  capitalize unicode_upper (lit "hello") = lit "Hello" /\
  capitalize unicode_upper (lit "") = lit "" /\
  capitalize unicode_upper (lit "WORLD") = lit "WORLD".
Proof.
  split; [reflexivity|]. split; [exact capitalize_cons|]. repeat split.
Qed.

(** What upper-casing a one-character string comes to. *)
Lemma toUpperCase_one (c : code_unit) :
  toUpperCase unicode_upper [c]
  = flat_map utf16_encode (upper_code_point unicode_upper c).
Proof. reflexivity. Qed.

(** A character that is not a lower-case ASCII letter and that the Unicode
    table is not asked about is its own upper case. *)
Lemma toUpperCase_fixed (u : code_unit) :
  (u < 65536)%N ->
  ((97 <=? u) && (u <=? 122))%N = false ->
  ((u <? 128)%N || (is_high_surrogate u || is_low_surrogate u)) = true ->
  toUpperCase unicode_upper [u] = [u].
Proof.
  intros Hu Hlower Hin. rewrite toUpperCase_one. unfold upper_code_point.
  rewrite Hlower.
  destruct (u <? 128)%N;
    [|cbn [orb] in Hin; rewrite Hin];
    cbn [flat_map app]; unfold utf16_encode;
    destruct (N.ltb_spec u 0x10000) as [_|H]; try lia; reflexivity.
Qed.

(** The Unicode upper-case mapping of a character is not empty, and begins
    with a character that is its own upper case. *)
Hypothesis unicode_upper_settles :
  forall cp : N,
    (128 <= cp < 65536)%N ->
    is_high_surrogate cp || is_low_surrogate cp = false ->
    exists u us,
      flat_map utf16_encode (unicode_upper cp) = u :: us /\
      toUpperCase unicode_upper [u] = [u].

Lemma upper_case_settles (c : code_unit) :
  (c < 65536)%N ->
  exists u us, toUpperCase unicode_upper [c] = u :: us /\
               toUpperCase unicode_upper [u] = [u].
Proof.
  intros Hc.
  destruct ((97 <=? c) && (c <=? 122))%N eqn:Hlower.
  - apply andb_true_iff in Hlower. destruct Hlower as [H1 H2].
    apply N.leb_le in H1, H2.
    exists (c - 32)%N, []. split.
    + rewrite toUpperCase_one. unfold upper_code_point.
      destruct (N.leb_spec 97 c) as [_|H]; [|lia].
      destruct (N.leb_spec c 122) as [_|H]; [|lia].
      cbn [andb flat_map app]. unfold utf16_encode.
      destruct (N.ltb_spec (c - 32) 0x10000) as [_|H]; [reflexivity | lia].
    + apply toUpperCase_fixed; [lia| |].
      * apply andb_false_iff. left. apply N.leb_gt. lia.
      * apply orb_true_iff. left. apply N.ltb_lt. lia.
  - destruct ((c <? 128)%N || (is_high_surrogate c || is_low_surrogate c))
      eqn:Hin.
    + exists c, []. split; apply toUpperCase_fixed; assumption.
    + apply orb_false_iff in Hin. destruct Hin as [H128 Hsur].
      apply N.ltb_ge in H128.
      destruct (unicode_upper_settles c (conj H128 Hc) Hsur)
        as [u [us [Hu Huu]]].
      exists u, us. split; [|exact Huu].
      rewrite toUpperCase_one. unfold upper_code_point.
      rewrite Hlower, Hsur.
      destruct (N.ltb_spec c 128) as [H|_]; [lia | exact Hu].
Qed.

(** [capitalize] is idempotent wherever upper-casing settles. *)
Lemma capitalize_idempotent_when_settled (s : jsstring) :
  well_formed s ->
  capitalize unicode_upper (capitalize unicode_upper s)
  = capitalize unicode_upper s.
Proof.
  destruct s as [|c rest]; intros Hs; [reflexivity|].
  inversion Hs as [|? ? Hc _]; subst.
  destruct (upper_case_settles c Hc) as [u [us [Hu Huu]]].
  rewrite capitalize_cons, Hu. cbn [app].
  rewrite capitalize_cons, Huu. reflexivity.
Qed.

End Capitalize.

(** ** The upper case of Unicode settles *)

Lemma lookup_In (cp : N) (t : list (N * list N)) (image : list N) :
  Unicode.lookup cp t = Some image -> In (cp, image) t.
Proof.
  induction t as [|[k i] t IH]; cbn [Unicode.lookup]; [discriminate|].
  destruct (N.eqb_spec cp k) as [->|_].
  - intros H. injection H as ->. left. reflexivity.
  - intros H. right. apply IH. exact H.
Qed.

(** A table that passes the check [settles] has the property
    [capitalize] relies on: the check is made on the characters listed,
    and a character the table does not list is its own upper case. *)
Lemma settled_table (t : list (N * list N)) :
  settles t = true ->
  forall cp : N,
    (128 <= cp < 65536)%N ->
    is_high_surrogate cp || is_low_surrogate cp = false ->
    exists u us,
      flat_map utf16_encode (Unicode.mapping t cp) = u :: us /\
      toUpperCase (Unicode.mapping t) [u] = [u].
Proof.
  intros Ht cp Hcp Hsur. unfold settles in Ht.
  rewrite forallb_forall in Ht. unfold Unicode.mapping at 1.
  destruct (Unicode.lookup cp t) as [image|] eqn:Hl.
  - specialize (Ht (cp, image) (lookup_In cp t image Hl)). cbn [snd] in Ht.
    destruct (flat_map utf16_encode image) as [|u us]; [discriminate Ht|].
    exists u, us. split; [reflexivity|].
    destruct (toUpperCase (Unicode.mapping t) [u]) as [|u' [|? ?]];
      try discriminate Ht.
    apply N.eqb_eq in Ht. subst u'. reflexivity.
  - exists cp, []. cbn [flat_map app]. unfold utf16_encode.
    destruct (N.ltb_spec cp 0x10000) as [_|H]; [|lia].
    split; [reflexivity|].
    rewrite toUpperCase_one. unfold upper_code_point. rewrite Hsur.
    destruct (N.leb_spec cp 122) as [H|_]; [lia|]. rewrite andb_false_r.
    destruct (N.ltb_spec cp 128) as [H|_]; [lia|].
    unfold Unicode.mapping. rewrite Hl.
    cbn [flat_map app]. unfold utf16_encode.
    destruct (N.ltb_spec cp 0x10000) as [_|H]; [reflexivity | lia].
Qed.

(** The table of Unicode passes the check. *)
Lemma Unicode_settles : settles Unicode.upper_table = true.
Proof. vm_compute. reflexivity. Qed.

(** C10.  [capitalize] is idempotent: by the upper-case mapping of
    Unicode, the first character of a capitalized string is its own upper
    case, and the rest is as it was. *)
Theorem C10_capitalize_idempotent :
  forall s : jsstring,
    well_formed s ->
    capitalize Unicode.to_upper (capitalize Unicode.to_upper s)
    = capitalize Unicode.to_upper s.
Proof.
  intros s Hs.
  apply capitalize_idempotent_when_settled; [|exact Hs].
  exact (settled_table Unicode.upper_table Unicode_settles).
Qed.

Lemma C10_capitalize_idempotent_witness :
  well_formed [0xDF%N; 0x61%N] /\
  capitalize Unicode.to_upper [0xDF%N; 0x61%N] = lit "SSa" /\
  capitalize Unicode.to_upper (capitalize Unicode.to_upper [0xDF%N; 0x61%N])
  = capitalize Unicode.to_upper [0xDF%N; 0x61%N].
Proof.
  assert (H : well_formed [0xDF%N; 0x61%N]).
  { repeat constructor. }
  split; [exact H|]. split; [vm_compute; reflexivity|].
  exact (C10_capitalize_idempotent [0xDF%N; 0x61%N] H).
Defined.

End UtilsSpec.

(* ================================================================== *)
(** * More arithmetic of binary64 numbers                              *)
(* ================================================================== *)

Module Arithmetic.
Import JS Spec Number.

Local Open Scope Z_scope.

(** ** Which numbers are finite *)

Lemma Pos_compare_cont_refl (m : positive) : Pos.compare_cont Eq m m = Eq.
Proof. apply Pos.compare_cont_refl. Qed.

Lemma SFeqb_refl (x : spec_float) :
  SFeqb x x = match x with S754_nan => false | _ => true end.
Proof.
  destruct x as [s|s| |s m e]; try reflexivity.
  - destruct s; reflexivity.
  - unfold SFeqb, SFcompare.
    destruct s; rewrite Z.compare_refl, Pos_compare_cont_refl; reflexivity.
Qed.

Lemma is_nan_spec (x : float) :
  is_nan x = match Prim2SF x with S754_nan => true | _ => false end.
Proof.
  unfold is_nan. rewrite eqb_spec, SFeqb_refl.
  destruct (Prim2SF x); reflexivity.
Qed.

Lemma is_finite_spec (x : float) :
  is_finite x =
  match Prim2SF x with
  | S754_zero _ | S754_finite _ _ _ => true
  | S754_infinity _ | S754_nan => false
  end.
Proof.
  unfold is_finite, is_infinity. rewrite is_nan_spec, eqb_spec, abs_spec.
  change (Prim2SF infinity) with (S754_infinity false).
  destruct (Prim2SF x) as [s|s| |s m e]; reflexivity.
Qed.

(** ** Multiplication commutes *)

Lemma SFmul_comm (x y : spec_float) :
  SFmul prec emax x y = SFmul prec emax y x.
Proof.
  destruct x as [sx|sx| |sx mx ex], y as [sy|sy| |sy my ey];
    cbn [SFmul]; rewrite ?(xorb_comm sx sy); try reflexivity.
  rewrite (Pos.mul_comm mx my), (Z.add_comm ex ey). reflexivity.
Qed.

Lemma mul_comm (a b : float) : (a * b = b * a)%float.
Proof. apply Prim2SF_inj. rewrite !mul_spec. apply SFmul_comm. Qed.

(** ** Subtracting is adding the opposite *)

Lemma cond_Zopp_negb (s : bool) (a : Z) :
  cond_Zopp (negb s) a = - cond_Zopp s a.
Proof. destruct s; unfold cond_Zopp; cbn [negb]; lia. Qed.

Lemma SFsub_SFadd_opp (x y : spec_float) :
  SFsub prec emax x y = SFadd prec emax x (SFopp y).
Proof.
  destruct x as [sx|sx| |sx mx ex], y as [sy|sy| |sy my ey];
    try reflexivity; destruct sx, sy; reflexivity.
Qed.

Lemma sub_add_opp (a b : float) : (a - b = a + - b)%float.
Proof.
  apply Prim2SF_inj. rewrite sub_spec, add_spec, opp_spec.
  apply SFsub_SFadd_opp.
Qed.

(** ** Zero as an operand *)

Lemma Prim2SF_neg_zero : Prim2SF (-0) = S754_zero true.
Proof. reflexivity. Qed.

Lemma add_zero_r (a : float) :
  (a + 0)%float = if Leibniz.eqb a (-0)%float then 0%float else a.
Proof.
  destruct (Leibniz.eqb a (-0)%float) eqn:E.
  - apply Leibniz.eqb_spec in E. subst a. reflexivity.
  - apply Prim2SF_inj. rewrite add_spec, Prim2SF_zero.
    destruct (Prim2SF a) as [[|]|s| |s m e] eqn:Ha; try reflexivity.
    exfalso. assert (a = (-0)%float) as ->.
    { apply Prim2SF_inj. rewrite Ha. reflexivity. }
    vm_compute in E. discriminate E.
Qed.

Lemma sub_zero_r (a : float) : (a - 0)%float = a.
Proof.
  apply Prim2SF_inj. rewrite sub_spec, Prim2SF_zero.
  destruct (Prim2SF a) as [[|]|s| |s m e]; reflexivity.
Qed.

Lemma mul_zero_r (a : float) :
  Prim2SF (a * 0)%float =
  match Prim2SF a with
  | S754_zero s | S754_finite s _ _ => S754_zero s
  | S754_infinity _ | S754_nan => S754_nan
  end.
Proof.
  rewrite mul_spec, Prim2SF_zero.
  destruct (Prim2SF a) as [s|s| |s m e]; cbn [SF64mul SFmul];
    rewrite ?xorb_false_r; reflexivity.
Qed.

Lemma sub_diag (a : float) :
  Prim2SF (a - a)%float =
  match Prim2SF a with
  | S754_zero _ | S754_finite _ _ _ => S754_zero false
  | S754_infinity _ | S754_nan => S754_nan
  end.
Proof.
  rewrite sub_spec.
  destruct (Prim2SF a) as [[|]|[|]| |s m e]; try reflexivity.
  unfold SF64sub. cbn [SFsub]. rewrite Z.sub_diag. reflexivity.
Qed.

(** ** Rounding what is already a number *)

Lemma iter_pos_iter {A : Type} (f : A -> A) (p : positive) (x : A) :
  iter_pos f p x = Pos.iter f x p.
Proof.
  revert x. induction p as [p IH|p IH|]; intros x; cbn [iter_pos Pos.iter].
  - rewrite !IH, <- !Pos.iter_swap. reflexivity.
  - rewrite !IH. reflexivity.
  - reflexivity.
Qed.

(** Shifting right the bits that a shift left added loses nothing. *)
Lemma shr_1_iter_xO (m k : positive) :
  iter_pos shr_1 k
    {| shr_m := Zpos (Pos.iter xO m k); shr_r := false; shr_s := false |}
  = {| shr_m := Zpos m; shr_r := false; shr_s := false |}.
Proof.
  rewrite iter_pos_iter.
  induction k as [|k IH] using Pos.peano_ind.
  - reflexivity.
  - rewrite Pos.iter_succ_r, Pos.iter_succ. cbn [shr_1 orb]. exact IH.
Qed.

(** A number given with [k] more bits than it needs rounds to itself. *)
Lemma binary_round_aux_exact (s : bool) (m : positive) (e k : Z) :
  valid_binary (S754_finite s m e) = true ->
  0 <= k ->
  binary_round_aux prec emax s (Zpos m * 2 ^ k) (e - k) loc_Exact
  = S754_finite s m e.
Proof.
  intros Hv Hk. destruct k as [|k|k]; [| |lia].
  - rewrite Z.mul_1_r, Z.sub_0_r. apply binary_round_aux_canonical. exact Hv.
  - destruct (iter_xO_spec m k) as [Hm Hd]. rewrite <- Hm.
    pose proof Hv as Hv'.
    unfold valid_binary, bounded, canonical_mantissa in Hv'.
    apply andb_true_iff in Hv'. destruct Hv' as [H1 H2].
    apply Z.eqb_eq in H1.
    unfold binary_round_aux, shr_fexp. cbn [Zdigits2]. rewrite Hd.
    replace (Zpos (digits2_pos m) + Zpos k + (e - Zpos k))
      with (Zpos (digits2_pos m) + e) by lia.
    rewrite H1. replace (e - (e - Zpos k)) with (Zpos k) by lia.
    cbn [shr shr_record_of_loc]. rewrite shr_1_iter_xO.
    cbn [shr_m loc_of_shr_record round_nearest_even shr_record_of_loc Zdigits2].
    replace (e - Zpos k + Zpos k) with e by lia.
    rewrite H1, Z.sub_diag. cbn [shr shr_m]. rewrite H2. reflexivity.
Qed.

(** ** One as an operand *)

Lemma Prim2SF_one : Prim2SF 1 = S754_finite false 4503599627370496 (-52).
Proof. reflexivity. Qed.

Lemma SFmul_unit (s : bool) (x : spec_float) :
  valid_binary x = true ->
  SFmul prec emax x (S754_finite s 4503599627370496 (-52))
  = if s then SFopp x else x.
Proof.
  intros Hv. destruct x as [sx|sx| |sx mx ex]; cbn [SFmul SFopp].
  - destruct s, sx; reflexivity.
  - destruct s, sx; reflexivity.
  - destruct s; reflexivity.
  - rewrite Pos2Z.inj_mul. change (Zpos 4503599627370496) with (2 ^ 52).
    replace (ex + -52) with (ex - 52) by lia.
    assert (Hx : valid_binary (S754_finite (xorb sx s) mx ex) = true)
      by exact Hv.
    rewrite (binary_round_aux_exact _ _ _ 52 Hx) by lia.
    destruct s, sx; reflexivity.
Qed.

Lemma mul_one_r (a : float) : (a * 1)%float = a.
Proof.
  apply Prim2SF_inj. rewrite mul_spec, Prim2SF_one.
  apply (SFmul_unit false). apply Prim2SF_valid.
Qed.

Lemma mul_minus_one_r (a : float) : (a * -1)%float = (- a)%float.
Proof.
  apply Prim2SF_inj. rewrite mul_spec, opp_spec.
  change (Prim2SF (-1)) with (S754_finite true 4503599627370496 (-52)).
  apply (SFmul_unit true). apply Prim2SF_valid.
Qed.

(** Dividing by one: the quotient is the dividend, with one bit more when
    the dividend is a normal number, and no remainder. *)
Lemma SFdiv_one (x : spec_float) :
  valid_binary x = true ->
  SFdiv prec emax x (S754_finite false 4503599627370496 (-52)) = x.
Proof.
  intros Hv. destruct x as [sx|sx| |sx mx ex]; cbn [SFdiv];
    rewrite ?xorb_false_r; try reflexivity.
  pose proof Hv as Hv'.
  unfold valid_binary, bounded, canonical_mantissa in Hv'.
  apply andb_true_iff in Hv'. destruct Hv' as [H1 _]. apply Z.eqb_eq in H1.
  unfold SFdiv_core_binary.
  cbn [Zdigits2]. change (Zpos (digits2_pos 4503599627370496)) with 53.
  set (d := Zpos (digits2_pos mx)) in *.
  set (f := fexp prec emax (d + ex - (53 + -52))).
  assert (Hf : ex - 1 <= f <= ex).
  { unfold f. revert H1. unfold fexp, SpecFloat.emin, prec, emax. lia. }
  replace (Z.min f (ex - -52)) with f by lia.
  destruct (ex - -52 - f) as [|t|t] eqn:Ht; [lia| |lia].
  rewrite Z.shiftl_mul_pow2 by lia.
  change (Zpos 4503599627370496) with (2 ^ 52).
  assert (Hpow : 2 ^ Zpos t = 2 ^ (ex - f) * 2 ^ 52).
  { rewrite <- Z.pow_add_r by lia. f_equal. lia. }
  assert (Hdm : Z.div_eucl (Zpos mx * 2 ^ Zpos t) (2 ^ 52)
                = (Zpos mx * 2 ^ (ex - f), 0)).
  { pose proof (Z.pow_pos_nonneg 2 52 ltac:(lia) ltac:(lia)) as Hpos.
    assert (Hq : (Zpos mx * 2 ^ Zpos t) / 2 ^ 52 = Zpos mx * 2 ^ (ex - f)).
    { rewrite Hpow, Z.mul_assoc. apply Z.div_mul. lia. }
    assert (Hr : (Zpos mx * 2 ^ Zpos t) mod 2 ^ 52 = 0).
    { rewrite Hpow, Z.mul_assoc. apply Z.mod_mul. lia. }
    unfold Z.div, Z.modulo in Hq, Hr.
    destruct (Z.div_eucl (Zpos mx * 2 ^ Zpos t) (2 ^ 52)) as [q r].
    cbn [fst snd] in Hq, Hr. subst. reflexivity. }
  rewrite Hdm.
  change (new_location (2 ^ 52) 0) with loc_Exact.
  replace f with (ex - (ex - f)) at 2 by lia.
  apply binary_round_aux_exact; [exact Hv | lia].
Qed.

Lemma div_one_r (a : float) : (a / 1)%float = a.
Proof.
  apply Prim2SF_inj. rewrite div_spec, Prim2SF_one.
  apply SFdiv_one. apply Prim2SF_valid.
Qed.

(** ** Parity *)

Lemma SFinteger_opp (x : spec_float) :
  SFinteger (SFopp x) = option_map Z.opp (SFinteger x).
Proof.
  destruct x as [s|s| |s m e]; try reflexivity.
  cbn [SFopp SFinteger]. destruct (0 <=? e).
  - cbn [option_map]. rewrite cond_Zopp_negb. reflexivity.
  - destruct (Zpos m mod 2 ^ (- e) =? 0); [|reflexivity].
    cbn [option_map]. rewrite cond_Zopp_negb. reflexivity.
Qed.

(** Whether a number is even does not depend on its sign. *)
Lemma rem_two_opp (v : float) :
  (JS.rem (- v) 2 =? 0)%float = (JS.rem v 2 =? 0)%float.
Proof.
  apply eq_true_iff_eq. rewrite !rem_two_is_zero.
  unfold integer_value. rewrite opp_spec, SFinteger_opp.
  destruct (SFinteger (Prim2SF v)) as [z|]; cbn [option_map].
  - split; intros [k Hk]; exists (- k).
    + assert (E : - z = 2 * k) by congruence. f_equal. lia.
    + assert (E : z = 2 * k) by congruence. f_equal. lia.
  - split; intros [k Hk]; discriminate Hk.
Qed.

(** From [2^53] on, every number is an even integer. *)
Lemma rem_two_large (v : float) :
  (9007199254740992 <=? abs v)%float = true ->
  is_finite v = true ->
  (JS.rem v 2 =? 0)%float = true.
Proof.
  rewrite leb_spec, abs_spec, is_finite_spec, rem_two_is_zero.
  change (Prim2SF 9007199254740992)
    with (S754_finite false 4503599627370496 1).
  unfold integer_value.
  destruct (Prim2SF v) as [s|s| |s m e]; try discriminate.
  intros Hle _. apply SFinteger_even_iff. left.
  unfold SFleb, SFabs, SFcompare in Hle.
  destruct (Z.compare_spec 1 e) as [H|H|H]; [lia | lia | discriminate Hle].
Qed.

(** ** Integers *)

(** A small mantissa rounds to the same number. *)
Lemma binary_round_small_value (s : bool) (p : positive) (e : Z) :
  Zpos p < 2 ^ 53 -> -1074 <= e <= 971 ->
  exists m' e',
    binary_round prec emax s p e = S754_finite s m' e' /\
    valid_binary (S754_finite s m' e') = true /\
    e' <= e /\ Zpos m' = Zpos p * 2 ^ (e - e').
Proof.
  intros Hp He. unfold binary_round.
  set (fe := fexp prec emax (Zpos (digits2_pos p) + e)).
  assert (Hd : Zpos (digits2_pos p) <= 53).
  { destruct (Z_le_gt_dec (Zpos (digits2_pos p)) 53) as [|Hgt]; [assumption|].
    pose proof (digits2_pos_bounds p) as [Hlo _].
    assert (2 ^ 53 <= 2 ^ (Zpos (digits2_pos p) - 1))
      by (apply Z.pow_le_mono_r; lia).
    lia. }
  assert (Hfe : fe <= e /\ -1074 <= fe).
  { unfold fe, fexp, SpecFloat.emin, prec, emax. lia. }
  destruct (shl_align_spec p e fe (proj1 Hfe)) as [m' [Hs [Hm Hdg]]].
  rewrite Hs. exists m', fe.
  assert (Hv : valid_binary (S754_finite s m' fe) = true).
  { unfold valid_binary, bounded, canonical_mantissa. rewrite Hdg.
    replace (Zpos (digits2_pos p) + (e - fe) + fe)
      with (Zpos (digits2_pos p) + e) by lia.
    fold fe. rewrite Z.eqb_refl. cbn [andb]. apply Z.leb_le.
    unfold prec, emax. lia. }
  split; [apply binary_round_aux_canonical; exact Hv|].
  split; [exact Hv|]. split; [apply Hfe | exact Hm].
Qed.

(** An integer below [2^53] in magnitude is a number, and that number
    denotes it. *)
Lemma integer_value_Number_of_Z (z : Z) :
  Z.abs z < 2 ^ 53 ->
  integer_value (Number_of_Z z) = Some z /\
  (z <> 0 -> exists s m e, Prim2SF (Number_of_Z z) = S754_finite s m e) /\
  (z = 0 -> Prim2SF (Number_of_Z z) = S754_zero false).
Proof.
  intros Hz. unfold integer_value, Number_of_Z.
  destruct z as [|p|p]; cbn [binary_normalize].
  - rewrite Prim2SF_SF2Prim by reflexivity.
    split; [reflexivity|]. split; [intros H; contradiction | reflexivity].
  - destruct (binary_round_small_value false p 0 ltac:(lia) ltac:(lia))
      as [m [e [Hb [Hv [He Hm]]]]].
    rewrite Hb, Prim2SF_SF2Prim by exact Hv.
    split; [|split; [eauto | discriminate]].
    cbn [SFinteger cond_Zopp]. rewrite Z.sub_0_l in Hm.
    destruct (Z.leb_spec 0 e) as [H|H].
    + assert (e = 0) by lia. subst e. rewrite Hm.
      change (2 ^ (- 0)) with 1. change (2 ^ 0) with 1.
      rewrite !Z.mul_1_r. reflexivity.
    + assert (Hq : 0 < 2 ^ (- e)) by (apply Z.pow_pos_nonneg; lia).
      rewrite Hm, Z.mod_mul, Z.div_mul by lia. reflexivity.
  - destruct (binary_round_small_value true p 0 ltac:(lia) ltac:(lia))
      as [m [e [Hb [Hv [He Hm]]]]].
    rewrite Hb, Prim2SF_SF2Prim by exact Hv.
    split; [|split; [eauto | discriminate]].
    cbn [SFinteger cond_Zopp]. rewrite Z.sub_0_l in Hm.
    destruct (Z.leb_spec 0 e) as [H|H].
    + assert (e = 0) by lia. subst e. rewrite Hm.
      change (2 ^ (- 0)) with 1. change (2 ^ 0) with 1.
      rewrite !Z.mul_1_r. reflexivity.
    + assert (Hq : 0 < 2 ^ (- e)) by (apply Z.pow_pos_nonneg; lia).
      rewrite Hm, Z.mod_mul, Z.div_mul by lia. reflexivity.
Qed.

(** ** Arithmetic of integers *)

(** The number of an integer that is not zero: its sign, and its magnitude
    shifted to fill the 53 bits of the mantissa. *)
Lemma binary_round_integer (s : bool) (p : positive) :
  Zpos p < 2 ^ 53 ->
  exists m,
    binary_round prec emax s p 0
    = S754_finite s m (Zpos (digits2_pos p) - 53) /\
    valid_binary (S754_finite s m (Zpos (digits2_pos p) - 53)) = true /\
    Zpos m = Zpos p * 2 ^ (53 - Zpos (digits2_pos p)) /\
    Zpos (digits2_pos p) <= 53.
Proof.
  intros Hp. unfold binary_round.
  assert (Hd : Zpos (digits2_pos p) <= 53).
  { destruct (Z_le_gt_dec (Zpos (digits2_pos p)) 53) as [|Hgt]; [assumption|].
    pose proof (digits2_pos_bounds p) as [Hlo _].
    assert (2 ^ 53 <= 2 ^ (Zpos (digits2_pos p) - 1))
      by (apply Z.pow_le_mono_r; lia).
    lia. }
  assert (Hfe : fexp prec emax (Zpos (digits2_pos p) + 0)
                = Zpos (digits2_pos p) - 53).
  { unfold fexp, SpecFloat.emin, prec, emax. lia. }
  rewrite Hfe.
  destruct (shl_align_spec p 0 (Zpos (digits2_pos p) - 53) ltac:(lia))
    as [m [Hs [Hm Hdg]]].
  rewrite Hs. exists m.
  assert (Hv : valid_binary
                 (S754_finite s m (Zpos (digits2_pos p) - 53)) = true).
  { unfold valid_binary, bounded, canonical_mantissa. rewrite Hdg.
    replace (Zpos (digits2_pos p) + (0 - (Zpos (digits2_pos p) - 53))
             + (Zpos (digits2_pos p) - 53))
      with (Zpos (digits2_pos p) + 0) by lia.
    rewrite Hfe, Z.eqb_refl. cbn [andb]. apply Z.leb_le.
    unfold prec, emax. lia. }
  split; [apply binary_round_aux_canonical; exact Hv|].
  split; [exact Hv|]. split; [|exact Hd].
  rewrite Hm. f_equal. f_equal. lia.
Qed.

(** The same integer given with [k] bits more. *)
Lemma binary_round_shifted (s : bool) (p q : positive) (k : Z) :
  Zpos p < 2 ^ 53 -> 0 <= k -> Zpos q = Zpos p * 2 ^ k ->
  binary_round prec emax s q (- k) = binary_round prec emax s p 0.
Proof.
  intros Hp Hk Hq.
  destruct (binary_round_integer s p Hp) as [m [Hb [Hv [Hm Hd]]]].
  rewrite Hb. set (d := Zpos (digits2_pos p)) in *.
  assert (Hdq : Zpos (digits2_pos q) = d + k).
  { destruct k as [|k|k]; [| |lia].
    - rewrite Z.mul_1_r in Hq. injection Hq as ->. unfold d. lia.
    - destruct (iter_xO_spec p k) as [H1 H2].
      assert (q = Pos.iter xO p k) as -> by (apply Pos2Z.inj; congruence).
      exact H2. }
  unfold binary_round.
  assert (Hfe : fexp prec emax (Zpos (digits2_pos q) + - k) = d - 53).
  { rewrite Hdq. unfold fexp, SpecFloat.emin, prec, emax.
    assert (0 < d) by (unfold d; lia). lia. }
  rewrite Hfe.
  destruct (Z_le_gt_dec (d - 53) (- k)) as [Hle|Hgt].
  - destruct (shl_align_spec q (- k) (d - 53) Hle) as [m' [Hs [Hm' _]]].
    rewrite Hs.
    assert (m' = m) as ->.
    { apply Pos2Z.inj. rewrite Hm', Hm, Hq, <- Z.mul_assoc, <- Z.pow_add_r
        by lia. f_equal. f_equal. lia. }
    apply binary_round_aux_canonical. exact Hv.
  - unfold shl_align.
    destruct (d - 53 - - k) as [|j|j] eqn:Hj; [lia| |lia].
    replace (- k) with (d - 53 - Zpos j) by lia.
    replace (Zpos q) with (Zpos m * 2 ^ Zpos j).
    + apply binary_round_aux_exact; [exact Hv | lia].
    + rewrite Hm, Hq, <- Z.mul_assoc, <- Z.pow_add_r by lia.
      f_equal. f_equal. lia.
Qed.

(** The number of an integer is a number. *)
Lemma Prim2SF_Number_of_Z (z : Z) :
  Z.abs z < 2 ^ 53 ->
  Prim2SF (Number_of_Z z) = binary_normalize prec emax z 0 false.
Proof.
  intros Hz. unfold Number_of_Z. apply Prim2SF_SF2Prim.
  destruct z as [|p|p]; cbn [binary_normalize]; [reflexivity| |].
  - destruct (binary_round_integer false p ltac:(lia)) as [m [-> [Hv _]]].
    exact Hv.
  - destruct (binary_round_integer true p ltac:(lia)) as [m [-> [Hv _]]].
    exact Hv.
Qed.

(** An integer given with [k] bits more is the same number. *)
Lemma binary_normalize_shifted (z : Z) (k : Z) :
  Z.abs z < 2 ^ 53 -> 0 <= k ->
  binary_normalize prec emax (z * 2 ^ k) (- k) false
  = binary_normalize prec emax z 0 false.
Proof.
  intros Hz Hk.
  pose proof (Z.pow_pos_nonneg 2 k ltac:(lia) Hk) as Hpow.
  destruct z as [|p|p].
  - reflexivity.
  - destruct (Zpos p * 2 ^ k) as [|q|q] eqn:Hq; try nia.
    cbn [binary_normalize].
    apply binary_round_shifted; [lia | lia | symmetry; exact Hq].
  - destruct (Zneg p * 2 ^ k) as [|q|q] eqn:Hq; try nia.
    cbn [binary_normalize]. apply binary_round_shifted; [lia | lia | nia].
Qed.

Lemma integer_mantissa_normal (p m : positive) :
  Zpos (digits2_pos p) <= 53 ->
  Zpos m = Zpos p * 2 ^ (53 - Zpos (digits2_pos p)) ->
  2 ^ 52 <= Zpos m.
Proof.
  intros Hd Hm. pose proof (digits2_pos_bounds p) as [Hlo _].
  replace 52 with (Zpos (digits2_pos p) - 1 + (53 - Zpos (digits2_pos p)))
    by lia.
  rewrite Z.pow_add_r, Hm by lia.
  apply Z.mul_le_mono_nonneg_r; [|exact Hlo].
  apply Z.pow_nonneg. lia.
Qed.

(** How the number of an integer that is not zero is made. *)
Lemma Number_of_Z_finite (z : Z) :
  Z.abs z < 2 ^ 53 -> z <> 0 ->
  exists m e,
    Prim2SF (Number_of_Z z) = S754_finite (z <? 0) m e /\
    e <= 0 /\ cond_Zopp (z <? 0) (Zpos m) = z * 2 ^ (- e) /\
    2 ^ 52 <= Zpos m.
Proof.
  intros Hz Hne. rewrite Prim2SF_Number_of_Z by exact Hz.
  destruct z as [|p|p]; [congruence| |]; cbn [binary_normalize].
  - destruct (binary_round_integer false p ltac:(lia))
      as [m [-> [_ [Hm Hd]]]].
    exists m, (Zpos (digits2_pos p) - 53). split; [reflexivity|].
    split; [lia|]. replace (- (Zpos (digits2_pos p) - 53))
      with (53 - Zpos (digits2_pos p)) by lia.
    split; [exact Hm | exact (integer_mantissa_normal p m Hd Hm)].
  - destruct (binary_round_integer true p ltac:(lia))
      as [m [-> [_ [Hm Hd]]]].
    exists m, (Zpos (digits2_pos p) - 53). split; [reflexivity|].
    split; [lia|]. replace (- (Zpos (digits2_pos p) - 53))
      with (53 - Zpos (digits2_pos p)) by lia.
    split; [|exact (integer_mantissa_normal p m Hd Hm)].
    unfold cond_Zopp. cbn [Z.ltb Z.compare]. lia.
Qed.

Lemma cond_Zopp_mul (s : bool) (u v : Z) :
  cond_Zopp s (u * v) = cond_Zopp s u * v.
Proof. destruct s; unfold cond_Zopp; lia. Qed.

Lemma Number_of_Z_zero : Prim2SF (Number_of_Z 0) = S754_zero false.
Proof. reflexivity. Qed.

(** Adding integers is exact as long as the sum is below [2^53]. *)
Lemma SFadd_integers (a b : Z) :
  Z.abs a < 2 ^ 53 -> Z.abs b < 2 ^ 53 -> Z.abs (a + b) < 2 ^ 53 ->
  SFadd prec emax (Prim2SF (Number_of_Z a)) (Prim2SF (Number_of_Z b))
  = Prim2SF (Number_of_Z (a + b)).
Proof.
  intros Ha Hb Hab.
  destruct (Z.eq_dec a 0) as [->|Na]; [|destruct (Z.eq_dec b 0) as [->|Nb]].
  - rewrite Number_of_Z_zero, Z.add_0_l.
    destruct (Z.eq_dec b 0) as [->|Nb]; [reflexivity|].
    destruct (Number_of_Z_finite b Hb Nb) as [m [e [-> _]]]. reflexivity.
  - rewrite Number_of_Z_zero, Z.add_0_r.
    destruct (Number_of_Z_finite a Ha Na) as [m [e [-> _]]]. reflexivity.
  - destruct (Number_of_Z_finite a Ha Na) as [ma [ea [-> [Hea [Hma _]]]]].
    destruct (Number_of_Z_finite b Hb Nb) as [mb [eb [-> [Heb [Hmb _]]]]].
    cbn [SFadd]. set (ez := Z.min ea eb).
    assert (Hez : ez <= ea /\ ez <= eb /\ ez <= 0) by (unfold ez; lia).
    destruct (shl_align_spec ma ea ez ltac:(lia)) as [X [-> [HX _]]].
    destruct (shl_align_spec mb eb ez ltac:(lia)) as [Y [-> [HY _]]].
    cbn [fst]. rewrite HX, HY, !cond_Zopp_mul, Hma, Hmb.
    rewrite <- !Z.mul_assoc, <- !Z.pow_add_r by lia.
    replace (- ea + (ea - ez)) with (- ez) by lia.
    replace (- eb + (eb - ez)) with (- ez) by lia.
    rewrite <- Z.mul_add_distr_r.
    replace ez with (- - ez) at 2 by lia.
    rewrite binary_normalize_shifted by lia.
    symmetry. apply Prim2SF_Number_of_Z. exact Hab.
Qed.

Lemma opp_Number_of_Z (b : Z) :
  Z.abs b < 2 ^ 53 -> b <> 0 ->
  (- Number_of_Z b)%float = Number_of_Z (- b).
Proof.
  intros Hb Nb. apply Prim2SF_inj.
  rewrite opp_spec, !Prim2SF_Number_of_Z by lia.
  destruct b as [|p|p]; [congruence| |]; cbn [Z.opp binary_normalize].
  - apply (binary_round_opp false).
  - apply (binary_round_opp true).
Qed.

(** Multiplying integers that are not zero is exact as long as the product
    is below [2^53]. *)
Lemma SFmul_integers (a b : Z) :
  a <> 0 -> b <> 0 -> Z.abs (a * b) < 2 ^ 53 ->
  SFmul prec emax (Prim2SF (Number_of_Z a)) (Prim2SF (Number_of_Z b))
  = Prim2SF (Number_of_Z (a * b)).
Proof.
  intros Na Nb Hab.
  assert (Ha : Z.abs a < 2 ^ 53) by nia.
  assert (Hb : Z.abs b < 2 ^ 53) by nia.
  destruct (Number_of_Z_finite a Ha Na) as [ma [ea [-> [Hea [Hma Hna]]]]].
  destruct (Number_of_Z_finite b Hb Nb) as [mb [eb [-> [Heb [Hmb Hnb]]]]].
  rewrite Prim2SF_Number_of_Z by exact Hab. cbn [SFmul].
  assert (Hprod : exists p, Z.abs (a * b) = Zpos p /\
                            binary_normalize prec emax (a * b) 0 false
                            = binary_round prec emax
                                (xorb (a <? 0) (b <? 0)) p 0 /\
                            Zpos ma * Zpos mb
                            = Zpos p * 2 ^ (- ea + - eb)).
  { assert (Hmm : Zpos ma * Zpos mb
                  = Z.abs (a * b) * 2 ^ (- ea + - eb)).
    { rewrite Z.pow_add_r, Z.abs_mul by lia.
      destruct a as [|pa|pa], b as [|pb|pb]; try congruence;
        unfold cond_Zopp in Hma, Hmb; cbn [Z.ltb Z.compare] in Hma, Hmb;
        cbn [Z.abs]; nia. }
    destruct a as [|pa|pa], b as [|pb|pb]; try congruence;
      exists (pa * pb)%positive; (split; [reflexivity|]);
      (split; [reflexivity | exact Hmm]). }
  destruct Hprod as [p [Hp [-> Hmm]]].
  destruct (binary_round_integer (xorb (a <? 0) (b <? 0)) p ltac:(lia))
    as [M [-> [Hv [HM Hd]]]].
  set (fe := Zpos (digits2_pos p) - 53) in *.
  destruct (valid_finite_bounds _ _ _ Hv) as [_ HMlt].
  assert (Hj : ea + eb <= fe).
  { destruct (Z_le_gt_dec (ea + eb) fe) as [|Hgt]; [assumption|]. exfalso.
    assert (HMeq : Zpos M = Zpos ma * Zpos mb * 2 ^ (ea + eb - fe)).
    { rewrite Hmm, HM, <- Z.mul_assoc, <- Z.pow_add_r by lia.
      f_equal. f_equal. unfold fe. lia. }
    pose proof (Z.pow_pos_nonneg 2 (ea + eb - fe) ltac:(lia) ltac:(lia)).
    assert (2 ^ 52 * 2 ^ 52 <= Zpos ma * Zpos mb)
      by (apply Z.mul_le_mono_nonneg; lia).
    change (2 ^ 52 * 2 ^ 52) with (2 ^ 104) in *.
    assert (2 ^ 104 <= Zpos M) by nia.
    assert (2 ^ 53 < 2 ^ 104) by reflexivity. lia. }
  rewrite Pos2Z.inj_mul.
  replace (Zpos ma * Zpos mb) with (Zpos M * 2 ^ (fe - (ea + eb))).
  - replace (ea + eb) with (fe - (fe - (ea + eb))) at 2 by lia.
    apply binary_round_aux_exact; [exact Hv | lia].
  - rewrite Hmm, HM, <- Z.mul_assoc, <- Z.pow_add_r by (unfold fe; lia).
    f_equal. f_equal. unfold fe. lia.
Qed.

Lemma add_integers (a b : Z) :
  Z.abs a < 2 ^ 53 -> Z.abs b < 2 ^ 53 -> Z.abs (a + b) < 2 ^ 53 ->
  (Number_of_Z a + Number_of_Z b)%float = Number_of_Z (a + b).
Proof.
  intros Ha Hb Hab. apply Prim2SF_inj. rewrite add_spec.
  apply SFadd_integers; assumption.
Qed.

Lemma sub_integers (a b : Z) :
  Z.abs a < 2 ^ 53 -> Z.abs b < 2 ^ 53 -> Z.abs (a - b) < 2 ^ 53 ->
  (Number_of_Z a - Number_of_Z b)%float = Number_of_Z (a - b).
Proof.
  intros Ha Hb Hab. destruct (Z.eq_dec b 0) as [->|Nb].
  - rewrite Z.sub_0_r. apply sub_zero_r.
  - rewrite sub_add_opp, opp_Number_of_Z by assumption.
    apply add_integers; [assumption | lia | exact Hab].
Qed.

Lemma mul_integers (a b : Z) :
  Z.abs a < 2 ^ 53 -> Z.abs b < 2 ^ 53 -> Z.abs (a * b) < 2 ^ 53 ->
  (Number_of_Z a * Number_of_Z b =? Number_of_Z (a * b))%float = true /\
  (a * b <> 0 -> (Number_of_Z a * Number_of_Z b)%float = Number_of_Z (a * b)).
Proof.
  intros Ha Hb Hab.
  assert (Hnz : a * b <> 0 ->
                (Number_of_Z a * Number_of_Z b)%float = Number_of_Z (a * b)).
  { intros Hne. apply Prim2SF_inj. rewrite mul_spec.
    apply SFmul_integers; [nia | nia | exact Hab]. }
  split; [|exact Hnz].
  destruct (Z.eq_dec a 0) as [->|Na]; [|destruct (Z.eq_dec b 0) as [->|Nb]].
  - rewrite Z.mul_0_l, mul_comm.
    change (Number_of_Z 0) with 0%float.
    rewrite eqb_spec, mul_zero_r, Prim2SF_zero.
    destruct (Z.eq_dec b 0) as [->|Nb]; [reflexivity|].
    destruct (Number_of_Z_finite b Hb Nb) as [m [e [-> _]]]. reflexivity.
  - rewrite Z.mul_0_r. change (Number_of_Z 0) with 0%float.
    rewrite eqb_spec, mul_zero_r, Prim2SF_zero.
    destruct (Number_of_Z_finite a Ha Na) as [m [e [-> _]]]. reflexivity.
  - rewrite Hnz by nia. rewrite eqb_self, is_nan_spec.
    destruct (Number_of_Z_finite (a * b) Hab ltac:(nia)) as [m [e [-> _]]].
    reflexivity.
Qed.

Local Close Scope Z_scope.

End Arithmetic.

(* ================================================================== *)
(** * The accumulator: how calls compose                               *)
(* ================================================================== *)

Module CalculatorProperties.
Import JS Calculator Spec Number Arithmetic.

(** A call either is a division by zero, which throws and changes nothing,
    or completes normally. *)
Lemma perform_cases (k : call) (c : Calculator) :
  (exists n, k = Divide n /\ is_zero n /\
             perform k c = (Throw DivisionByZero, c)) \/
  ((forall n, k = Divide n -> ~ is_zero n) /\
   exists r c', perform k c = (Normal r, c')).
Proof.
  destruct k;
    try (right; split; [intros ? H; discriminate H
                       | eexists; eexists; reflexivity]).
  rewrite CalculatorSpec.perform_divide.
  destruct (n =? 0)%float eqn:E.
  - left. exists n. rewrite <- eqb_zero_is_zero. auto.
  - right. split; [|eexists; eexists; reflexivity].
    intros n' H. injection H as <-. rewrite <- eqb_zero_is_zero, E.
    discriminate.
Qed.

Lemma sequence_cons (k : call) (ks : list call) (c : Calculator) :
  sequence (k :: ks) c =
  match perform k c with
  | (Normal _, c') => sequence ks c'
  | (Throw e, c') => (Throw e, c')
  end.
Proof. reflexivity. Qed.

Lemma divides_by_zero_cons (k : call) (ks : list call) :
  divides_by_zero (k :: ks) <->
  (exists n, k = Divide n /\ is_zero n) \/ divides_by_zero ks.
Proof.
  unfold divides_by_zero. split.
  - intros [n [[H|H] Hn]]; [left | right]; eauto.
  - intros [[n [-> Hn]] | [n [H Hn]]]; exists n; split; auto;
      [left; reflexivity | right; exact H].
Qed.

(** X1.  Whether a sequence of calls throws does not depend on the
    register: it throws exactly when one of the calls is a division by
    zero. *)
Theorem sequence_throws_iff_divides_by_zero :
  forall (ks : list call) (c : Calculator),
    throws (fst (sequence ks c)) <-> divides_by_zero ks.
Proof.
  induction ks as [|k ks IH]; intros c.
  - split.
    + intros [e He]. discriminate He.
    + intros [n [[] _]].
  - rewrite sequence_cons, divides_by_zero_cons.
    destruct (perform_cases k c) as [[n [-> [Hn Hp]]] | [Hk [r [c' Hp]]]];
      rewrite Hp.
    + split; [intros _; left; eauto | intros _; eexists; reflexivity].
    + rewrite IH. split; [auto|].
      intros [[n [-> Hn]] | H]; [|exact H].
      exfalso. exact (Hk n eq_refl Hn).
Qed.

(** X2.  A sequence of calls stops at its first division by zero: it
    throws the division-by-zero error, the calls before it have had their
    effect on the register, those after it have had none. *)
Theorem sequence_stops_at_division_by_zero :
  forall (before after : list call) (n : float) (c : Calculator),
    is_zero n ->
    ~ divides_by_zero before ->
    sequence (before ++ Divide n :: after) c
    = (Throw DivisionByZero, snd (sequence before c)) /\
    fst (sequence before c) = Normal tt.
Proof.
  induction before as [|k ks IH]; intros after n c Hn Hb.
  - cbn [app]. rewrite sequence_cons, CalculatorSpec.perform_divide.
    apply eqb_zero_is_zero in Hn. rewrite Hn. split; reflexivity.
  - cbn [app]. rewrite !sequence_cons.
    rewrite divides_by_zero_cons in Hb.
    destruct (perform_cases k c) as [[m [-> [Hm _]]] | [_ [r [c' Hp]]]].
    + exfalso. apply Hb. left. eauto.
    + rewrite Hp. apply IH; [exact Hn | tauto].
Qed.

Lemma sequence_stops_witness :
  is_zero 0%float /\
  ~ divides_by_zero [Add 10; Divide 4] /\
  sequence ([Add 10; Divide 4] ++ Divide 0 :: [Multiply 2; Reset])
           {| value := 2 |}
  = (Throw DivisionByZero, {| value := 3 |}).
Proof.
  assert (Hz : is_zero 0%float) by (left; reflexivity).
  assert (Hb : ~ divides_by_zero [Add 10; Divide 4]).
  { intros [n [[H|[H|[]]] Hn]]; [discriminate H|].
    injection H as <-. destruct Hn as [Hn|Hn]; vm_compute in Hn;
      discriminate Hn. }
  split; [exact Hz|]. split; [exact Hb|].
  exact (proj1 (sequence_stops_at_division_by_zero
                  [Add 10; Divide 4] [Multiply 2; Reset] 0
                  {| value := 2 |} Hz Hb)).
Defined.

(** X3.  [reset] and [setValue] make what came before irrelevant: after
    them, a sequence of calls behaves as on a new instance, whatever the
    register was and whatever calls were made, as long as none threw. *)
Theorem reset_and_setValue_forget_the_past :
  forall (before after : list call) (c : Calculator),
    ~ divides_by_zero before ->
    sequence (before ++ Reset :: after) c
    = sequence after (constructor None) /\
    (forall n, sequence (before ++ SetValue n :: after) c
               = sequence after (constructor (Some n))).
Proof.
  induction before as [|k ks IH]; intros after c Hb.
  - split; reflexivity.
  - cbn [app]. rewrite divides_by_zero_cons in Hb.
    destruct (perform_cases k c) as [[m [-> [Hm _]]] | [_ [r [c' Hp]]]].
    + exfalso. apply Hb. left. eauto.
    + destruct (IH after c' ltac:(tauto)) as [H1 H2].
      split; [|intros n]; rewrite sequence_cons, Hp; auto.
Qed.

Lemma reset_forgets_witness :
  ~ divides_by_zero [Add 10; Multiply 3] /\
  sequence ([Add 10; Multiply 3] ++ Reset :: [Add 1]) {| value := 7 |}
  = sequence [Add 1] (constructor None).
Proof.
  assert (Hb : ~ divides_by_zero [Add 10; Multiply 3]).
  { intros [n [[H|[H|[]]] _]]; discriminate H. }
  split; [exact Hb|].
  exact (proj1 (reset_and_setValue_forget_the_past
                  [Add 10; Multiply 3] [Add 1] {| value := 7 |} Hb)).
Defined.

(** X4.  The observers can be left out of any sequence of calls: with or
    without them it ends the same way, with the same register. *)
Theorem observers_can_be_left_out :
  forall (ks : list call) (c : Calculator),
    sequence (filter (fun k => negb (is_observer k)) ks) c = sequence ks c.
Proof.
  induction ks as [|k ks IH]; intros c; [reflexivity|].
  cbn [filter]. destruct (is_observer k) eqn:Hk; cbn [negb].
  - rewrite IH, sequence_cons.
    destruct k; try discriminate Hk; reflexivity.
  - rewrite !sequence_cons.
    destruct (perform k c) as [[r|e] c']; [apply IH | reflexivity].
Qed.

Lemma record_eta (c : Calculator) : {| value := value c |} = c.
Proof. destruct c. reflexivity. Qed.

(** X5.  [multiply(1)], [divide(1)] and [subtract(0)] leave the register
    exactly as it was, whatever it holds; so does [add(0)], except that it
    turns [-0] into [0]. *)
Theorem neutral_calls_leave_the_register :
  forall c : Calculator,
    multiply 1 c = (Normal this, c) /\
    divide 1 c = (Normal this, c) /\
    subtract 0 c = (Normal this, c) /\
    add 0 c = (Normal this,
               if Leibniz.eqb (value c) (-0)%float
               then {| value := 0 |} else c).
Proof.
  intros c. repeat split.
  - unfold multiply, bind, get_value, set_value, ret.
    rewrite mul_one_r, record_eta. reflexivity.
  - unfold divide. change (1 =? 0)%float with false.
    unfold bind, get_value, set_value, ret.
    rewrite div_one_r, record_eta. reflexivity.
  - unfold subtract, bind, get_value, set_value, ret.
    rewrite sub_zero_r, record_eta. reflexivity.
  - unfold add, bind, get_value, set_value, ret. rewrite add_zero_r.
    destruct (Leibniz.eqb (value c) (-0)%float);
      [|rewrite record_eta]; reflexivity.
Qed.

(** X6.  [multiply(-1)] negates the register.  After it [isEven] answers
    as before, and [isPositive] answers [true] exactly when the value was
    strictly negative. *)
Theorem multiply_by_minus_one_negates :
  forall c : Calculator,
    multiply (-1) c = (Normal this, {| value := - value c |}) /\
    fst (isEven {| value := - value c |}) = fst (isEven c) /\
    (fst (isPositive {| value := - value c |}) = Normal true <->
     strictly_negative (value c)).
Proof.
  intros c. split; [|split].
  - unfold multiply, bind, get_value, set_value, ret.
    rewrite mul_minus_one_r. reflexivity.
  - unfold isEven, bind, get_value, ret. cbn [value fst].
    rewrite rem_two_opp. reflexivity.
  - unfold isPositive, bind, get_value, ret. cbn [value fst].
    assert (H : (0 <? - value c)%float = true
                <-> strictly_negative (value c)).
    { rewrite ltb_zero_spec. unfold strictly_positive, strictly_negative.
      rewrite opp_spec.
      destruct (Prim2SF (value c)) as [s|[|]| |[|] m e]; cbn; tauto. }
    rewrite <- H. split; [intros E; injection E as E; exact E|].
    intros E. rewrite E. reflexivity.
Qed.

(** X7.  From [2^53] on every number is an even integer: [isEven] returns
    [true] for every finite value of that magnitude. *)
Theorem isEven_of_large_values :
  forall c : Calculator,
    (9007199254740992 <=? abs (value c))%float = true ->
    is_finite (value c) = true ->
    isEven c = (Normal true, c).
Proof.
  intros c Hle Hfin. unfold isEven, bind, get_value, ret.
  rewrite (rem_two_large _ Hle Hfin). reflexivity.
Qed.

Lemma isEven_of_large_values_witness :
  (9007199254740992 <=? abs (value {| value := -1e300 |}))%float = true /\
  is_finite (value {| value := -1e300 |}) = true /\
  isEven {| value := -1e300 |} = (Normal true, {| value := -1e300 |}).
Proof.
  split; [reflexivity|]. split; [reflexivity|].
  exact (isEven_of_large_values {| value := -1e300 |} eq_refl eq_refl).
Defined.

(** X8.  [multiply(0)] leaves a zero when the value was finite and [NaN]
    when it was not: after it [isPositive] answers [false], and [isEven]
    answers whether the value was finite. *)
Theorem multiply_by_zero :
  forall c : Calculator,
    exists c' : Calculator,
      multiply 0 c = (Normal this, c') /\
      (value c' =? 0)%float = is_finite (value c) /\
      is_nan (value c') = negb (is_finite (value c)) /\
      isPositive c' = (Normal false, c') /\
      isEven c' = (Normal (is_finite (value c)), c').
Proof.
  intros c. exists {| value := value c * 0 |}. cbn [value].
  pose proof (mul_zero_r (value c)) as Hm.
  pose proof (is_finite_spec (value c)) as Hf.
  split; [reflexivity|]. split; [|split; [|split]].
  - rewrite eqb_spec, Hm, Hf, Prim2SF_zero.
    destruct (Prim2SF (value c)); reflexivity.
  - rewrite is_nan_spec, Hm, Hf. destruct (Prim2SF (value c)); reflexivity.
  - unfold isPositive, bind, get_value, ret. cbn [value].
    replace (0 <? value c * 0)%float with false; [reflexivity|].
    symmetry. apply not_true_is_false. rewrite ltb_zero_spec.
    unfold strictly_positive. rewrite Hm.
    destruct (Prim2SF (value c)); exact (fun H => H).
  - unfold isEven, bind, get_value, ret. cbn [value].
    replace (JS.rem (value c * 0) 2 =? 0)%float with (is_finite (value c));
      [reflexivity|].
    symmetry. apply eq_true_iff_eq. rewrite rem_two_is_zero.
    unfold integer_value. rewrite Hm, Hf.
    destruct (Prim2SF (value c)); cbn [SFinteger]; split;
      try discriminate; try reflexivity;
      try (intros _; exists 0%Z; reflexivity);
      intros [k Hk]; discriminate Hk.
Qed.

(** X21.  On integers the accumulator is exact: from an integer register,
    [add], [subtract] and [multiply] by an integer leave the integer sum,
    difference or product, as long as it is below [2^53] in magnitude (a
    product that is zero may be left as [-0]). *)
Theorem integer_calls_are_exact :
  forall a b : Z,
    (Z.abs a < 2 ^ 53)%Z -> (Z.abs b < 2 ^ 53)%Z ->
    ((Z.abs (a + b) < 2 ^ 53)%Z ->
     add (Number_of_Z b) {| value := Number_of_Z a |}
     = (Normal this, {| value := Number_of_Z (a + b) |})) /\
    ((Z.abs (a - b) < 2 ^ 53)%Z ->
     subtract (Number_of_Z b) {| value := Number_of_Z a |}
     = (Normal this, {| value := Number_of_Z (a - b) |})) /\
    ((Z.abs (a * b) < 2 ^ 53)%Z -> (a * b <> 0)%Z ->
     multiply (Number_of_Z b) {| value := Number_of_Z a |}
     = (Normal this, {| value := Number_of_Z (a * b) |})) /\
    ((Z.abs (a * b) < 2 ^ 53)%Z ->
     exists c', multiply (Number_of_Z b) {| value := Number_of_Z a |}
                = (Normal this, c') /\
                (value c' =? Number_of_Z (a * b))%float = true).
Proof.
  intros a b Ha Hb. repeat split.
  - intros H. unfold add, bind, get_value, set_value, ret. cbn [value].
    rewrite add_integers by assumption. reflexivity.
  - intros H. unfold subtract, bind, get_value, set_value, ret. cbn [value].
    rewrite sub_integers by assumption. reflexivity.
  - intros H Hne. unfold multiply, bind, get_value, set_value, ret.
    cbn [value].
    rewrite (proj2 (mul_integers a b Ha Hb H) Hne). reflexivity.
  - intros H. eexists. split; [reflexivity|]. cbn [value].
    exact (proj1 (mul_integers a b Ha Hb H)).
Qed.

Lemma integer_calls_are_exact_witness :
  (Z.abs 9007199254740000 < 2 ^ 53)%Z /\ (Z.abs (-991) < 2 ^ 53)%Z /\
  subtract (Number_of_Z (-991))
           {| value := Number_of_Z 9007199254740000 |}
  = (Normal this, {| value := Number_of_Z 9007199254740991 |}).
Proof.
  split; [reflexivity|]. split; [reflexivity|].
  destruct (integer_calls_are_exact 9007199254740000 (-991)
              eq_refl eq_refl) as [_ [H _]].
  exact (H eq_refl).
Defined.

(** X22.  On an integer register below [2^53] in magnitude, [isEven]
    tells whether the integer is even and [isPositive] whether it is above
    zero. *)
Theorem observers_of_an_integer_register :
  forall z : Z,
    (Z.abs z < 2 ^ 53)%Z ->
    isEven {| value := Number_of_Z z |}
    = (Normal (Z.even z), {| value := Number_of_Z z |}) /\
    isPositive {| value := Number_of_Z z |}
    = (Normal (0 <? z)%Z, {| value := Number_of_Z z |}).
Proof.
  intros z Hz. split.
  - unfold isEven, bind, get_value, ret. cbn [value].
    replace (JS.rem (Number_of_Z z) 2 =? 0)%float with (Z.even z);
      [reflexivity|].
    symmetry. apply eq_true_iff_eq. rewrite rem_two_is_zero.
    rewrite (proj1 (integer_value_Number_of_Z z Hz)), Z.even_spec.
    split; intros [k Hk]; exists k; congruence.
  - unfold isPositive, bind, get_value, ret. cbn [value].
    replace (0 <? Number_of_Z z)%float with (0 <? z)%Z; [reflexivity|].
    symmetry. apply eq_true_iff_eq. rewrite ltb_zero_spec, Z.ltb_lt.
    unfold strictly_positive.
    destruct (Z.eq_dec z 0) as [->|Hne].
    + rewrite Number_of_Z_zero. split; [contradiction | lia].
    + destruct (Number_of_Z_finite z Hz Hne) as [m [e [-> _]]].
      destruct (Z.ltb_spec z 0); split; try lia; try contradiction;
        exact (fun _ => I).
Qed.

Lemma observers_of_an_integer_register_witness :
  (Z.abs (-4) < 2 ^ 53)%Z /\
  isEven {| value := Number_of_Z (-4) |}
  = (Normal true, {| value := Number_of_Z (-4) |}) /\
  isPositive {| value := Number_of_Z (-4) |}
  = (Normal false, {| value := Number_of_Z (-4) |}).
Proof.
  split; [reflexivity|].
  exact (observers_of_an_integer_register (-4) eq_refl).
Defined.

End CalculatorProperties.

(* ================================================================== *)
(** * The helpers: further properties                                  *)
(* ================================================================== *)

Module UtilsProperties.
Import JS utils Spec Number Arithmetic.

(** ** [add], [subtract], [multiply] *)

(** X9.  [multiply(a, b)] and [multiply(b, a)] are the same number; they
    compare equal with [==] unless the product is [NaN]. *)
Theorem multiply_commutes :
  forall a b : float,
    multiply a b = multiply b a /\
    (multiply a b =? multiply b a)%float = negb (is_nan (multiply a b)).
Proof.
  intros a b. unfold multiply. split; [apply mul_comm|].
  rewrite <- (mul_comm a b). apply eqb_self.
Qed.

(** X10.  [subtract(a, b)] is [add(a, -b)], for all numbers. *)
Theorem subtract_is_add_of_opposite :
  forall a b : float, subtract a b = add a (- b)%float.
Proof. intros a b. apply sub_add_opp. Qed.

(** X11.  Neutral operands: [subtract(a, 0)], [multiply(a, 1)] and
    [multiply(1, a)] are [a] itself, whatever [a] is; [add(a, 0)] and
    [add(0, a)] are [a] too, except that they make [0] of [-0];
    [multiply(a, -1)] is [-a]. *)
Theorem neutral_operands :
  forall a : float,
    subtract a 0 = a /\
    multiply a 1 = a /\
    multiply 1 a = a /\
    multiply a (-1) = (- a)%float /\
    add a 0 = (if Leibniz.eqb a (-0)%float then 0%float else a) /\
    add 0 a = (if Leibniz.eqb a (-0)%float then 0%float else a) /\
    (add a 0 =? a)%float = negb (is_nan a).
Proof.
  intros a. unfold subtract, multiply, add.
  split; [apply sub_zero_r|]. split; [apply mul_one_r|].
  split; [rewrite mul_comm; apply mul_one_r|].
  split; [apply mul_minus_one_r|].
  split; [apply add_zero_r|].
  split; [rewrite add_comm; apply add_zero_r|].
  rewrite add_zero_r. destruct (Leibniz.eqb a (-0)%float) eqn:E.
  - apply Leibniz.eqb_spec in E. subst a. reflexivity.
  - apply eqb_self.
Qed.

(** X12.  [multiply(a, 0)] is a zero ([== 0]) exactly when [a] is finite;
    for an infinity or [NaN] it is [NaN]. *)
Theorem multiply_by_zero_is_zero_iff_finite :
  forall a : float,
    (multiply a 0 =? 0)%float = is_finite a /\
    is_nan (multiply a 0) = negb (is_finite a).
Proof.
  intros a. unfold multiply.
  pose proof (mul_zero_r a) as Hm. pose proof (is_finite_spec a) as Hf.
  split.
  - rewrite eqb_spec, Hm, Hf, Prim2SF_zero. destruct (Prim2SF a); reflexivity.
  - rewrite is_nan_spec, Hm, Hf. destruct (Prim2SF a); reflexivity.
Qed.

(** X13.  [subtract(a, a)] is [0] (and never [-0]) when [a] is finite, and
    [NaN] when it is not. *)
Theorem subtract_from_itself :
  forall a : float,
    subtract a a = if is_finite a then 0%float else nan.
Proof.
  intros a. unfold subtract. apply Prim2SF_inj.
  rewrite sub_diag, is_finite_spec.
  destruct (Prim2SF a); reflexivity.
Qed.

(** ** [getErrorMessage] *)

(** X14.  Whatever a call on the accumulator throws, [getErrorMessage]
    reads it as ["Division by zero"]. *)
Theorem getErrorMessage_of_what_a_call_throws :
  forall (shortest_decimal : float -> jsstring)
         (k : Calculator.call) (c c' : Calculator.Calculator) (e : value),
    Calculator.perform k c = (Throw e, c') ->
    getErrorMessage shortest_decimal e
    = Normal (VString (lit "Division by zero")).
Proof.
  intros sd k c c' e H.
  destruct (CalculatorProperties.perform_cases k c)
    as [[n [_ [_ Hp]]] | [_ [r [c'' Hp]]]]; rewrite Hp in H.
  - injection H as <- _. reflexivity.
  - discriminate H.
Qed.

Lemma getErrorMessage_of_what_a_call_throws_witness :
  Calculator.perform (Calculator.Divide 0) {| Calculator.value := 8 |}
  = (Throw Calculator.DivisionByZero, {| Calculator.value := 8 |}) /\
  getErrorMessage (fun _ => []) Calculator.DivisionByZero
  = Normal (VString (lit "Division by zero")).
Proof.
  split; [reflexivity|].
  exact (getErrorMessage_of_what_a_call_throws
           (fun _ => []) (Calculator.Divide 0)
           {| Calculator.value := 8 |} {| Calculator.value := 8 |}
           Calculator.DivisionByZero eq_refl).
Defined.

(** X15.  Of an object whose [message] is an integer below [2^53] in
    magnitude, [getErrorMessage] returns the decimal numeral of that
    integer, with a minus sign when it is negative. *)
Theorem getErrorMessage_of_an_integer_message :
  forall (shortest_decimal : float -> jsstring) (z : Z)
         (others : list (jsstring * value)) (stringified : option jsstring),
    (Z.abs z < 2 ^ 53)%Z ->
    getErrorMessage shortest_decimal
      (VObject false ((lit "message", VNumber (Number_of_Z z)) :: others)
         stringified)
    = Normal (VString (decimal_of_Z z)).
Proof.
  intros sd z others str Hz.
  destruct (integer_value_Number_of_Z z Hz) as [Hi [Hfin Hzero]].
  unfold getErrorMessage. cbn. do 2 f_equal. unfold Number_toString.
  destruct (Z.eq_dec z 0) as [->|Hne].
  - rewrite (Hzero eq_refl). reflexivity.
  - destruct (Hfin Hne) as [s [m [e Hp]]]. rewrite Hp, Hi.
    destruct (Z.ltb_spec (Z.abs z) (2 ^ 53)) as [_|H]; [reflexivity | lia].
Qed.

Lemma getErrorMessage_of_an_integer_message_witness :
  (Z.abs (-1500) < 2 ^ 53)%Z /\
  getErrorMessage (fun _ => [])
    (VObject false [(lit "message", VNumber (Number_of_Z (-1500)))] None)
  = Normal (VString (lit "-1500")).
Proof.
  split; [reflexivity|].
  exact (getErrorMessage_of_an_integer_message
           (fun _ => []) (-1500) [] None eq_refl).
Defined.

(** ** [isValidEmail] *)

Lemma accepted_iff_shape (text : jsstring) :
  isValidEmail text = true <-> email_shape text.
Proof.
  unfold isValidEmail, emailRegex, email_shape.
  rewrite UtilsSpec.test_anchored, UtilsSpec.match_here_OneOrMore. split.
  - intros [l [v1 [-> [Hl [Hlall H1]]]]].
    apply UtilsSpec.match_here_Once in H1.
    destruct H1 as [c1 [v2 [-> [Hc1 H2]]]].
    apply UtilsSpec.match_here_OneOrMore in H2.
    destruct H2 as [d [v3 [-> [Hd [Hdall H3]]]]].
    apply UtilsSpec.match_here_Once in H3.
    destruct H3 as [c2 [v4 [-> [Hc2 H4]]]].
    apply UtilsSpec.match_here_OneOrMore in H4.
    destruct H4 as [t [v5 [-> [Ht [Htall H5]]]]].
    apply UtilsSpec.match_here_AssertEnd in H5. subst v5.
    cbn in Hc1, Hc2. apply N.eqb_eq in Hc1, Hc2. subst c1 c2.
    exists l, d, t. rewrite app_nil_r.
    repeat split; try assumption; apply UtilsSpec.class_run; auto.
  - intros [l [d [t [-> [Hl [Hd Ht]]]]]].
    apply UtilsSpec.class_run in Hl, Hd, Ht.
    exists l, ([64%N] ++ d ++ [46%N] ++ t).
    split; [reflexivity|]. split; [apply Hl|]. split; [apply Hl|].
    apply UtilsSpec.match_here_Once. exists 64%N, (d ++ [46%N] ++ t).
    split; [reflexivity|]. split; [reflexivity|].
    apply UtilsSpec.match_here_OneOrMore. exists d, ([46%N] ++ t).
    split; [reflexivity|]. split; [apply Hd|]. split; [apply Hd|].
    apply UtilsSpec.match_here_Once. exists 46%N, t.
    split; [reflexivity|]. split; [reflexivity|].
    apply UtilsSpec.match_here_OneOrMore. exists t, [].
    split; [symmetry; apply app_nil_r|]. split; [apply Ht|].
    split; [apply Ht | reflexivity].
Qed.

Lemma plain_char_spec (c : code_unit) :
  plain_char c = true <-> is_white_space c = false /\ c <> 64%N.
Proof.
  unfold plain_char. rewrite andb_true_iff, !negb_true_iff, N.eqb_neq.
  reflexivity.
Qed.

Lemma plain_run_count (l : jsstring) :
  Forall (fun c => plain_char c = true) l -> count_occ N.eq_dec l 64%N = 0.
Proof.
  induction 1 as [|c l Hc _ IH]; [reflexivity|].
  apply plain_char_spec in Hc. destruct Hc as [_ Hc].
  rewrite count_occ_cons_neq by exact Hc. exact IH.
Qed.

Lemma plain_run_no_white_space (l : jsstring) :
  Forall (fun c => plain_char c = true) l ->
  Forall (fun c => is_white_space c = false) l.
Proof.
  apply Forall_impl. intros c Hc. apply plain_char_spec in Hc. apply Hc.
Qed.

Lemma plain_run_length (l : jsstring) : plain_run l -> 1 <= List.length l.
Proof.
  intros [Hl _]. destruct l; [congruence | cbn; lia].
Qed.

(** X16.  What [isValidEmail] accepts has exactly one [@], no white space,
    a [.] somewhere after the [@], at least five characters, and neither
    begins nor ends with [@]. *)
Theorem isValidEmail_accepts_only :
  forall text : jsstring,
    isValidEmail text = true ->
    count_occ N.eq_dec text 64%N = 1 /\
    Forall (fun c => is_white_space c = false) text /\
    (exists l r, text = l ++ [64%N] ++ r /\ In 46%N r) /\
    5 <= List.length text /\
    (exists c rest, text = c :: rest /\ c <> 64%N) /\
    (exists front c, text = front ++ [c] /\ c <> 64%N).
Proof.
  intros text H. apply accepted_iff_shape in H.
  destruct H as [l [d [t [-> [Hl [Hd Ht]]]]]].
  pose proof (plain_run_length l Hl) as Ll.
  pose proof (plain_run_length d Hd) as Ld.
  pose proof (plain_run_length t Ht) as Lt.
  destruct Hl as [Hl Pl], Hd as [Hd Pd], Ht as [Ht Pt].
  split; [|split; [|split; [|split; [|split]]]].
  - rewrite !count_occ_app. unfold code_unit.
    rewrite (plain_run_count l Pl), (plain_run_count d Pd),
      (plain_run_count t Pt). reflexivity.
  - repeat (apply Forall_app; split);
      try (apply plain_run_no_white_space; assumption);
      repeat constructor.
  - exists l, (d ++ [46%N] ++ t). split; [reflexivity|].
    apply in_or_app. right. left. reflexivity.
  - rewrite !length_app. cbn [List.length].
    unfold jsstring, code_unit in *. lia.
  - destruct l as [|c l]; [congruence|].
    exists c, (l ++ [64%N] ++ d ++ [46%N] ++ t).
    split; [reflexivity|]. inversion Pl as [|? ? Hc _]; subst.
    apply plain_char_spec in Hc. apply Hc.
  - destruct (exists_last Ht) as [front [c ->]].
    exists (l ++ [64%N] ++ d ++ [46%N] ++ front), c.
    split; [rewrite <- !app_assoc; reflexivity|].
    apply Forall_app in Pt. destruct Pt as [_ Pc].
    inversion Pc as [|? ? Hc _]; subst.
    apply plain_char_spec in Hc. apply Hc.
Qed.

Lemma isValidEmail_accepts_only_witness :
  isValidEmail (lit "a.b@c.de") = true /\
  count_occ N.eq_dec (lit "a.b@c.de") 64%N = 1 /\
  5 <= List.length (lit "a.b@c.de").
Proof.
  split; [reflexivity|].
  destruct (isValidEmail_accepts_only (lit "a.b@c.de") eq_refl)
    as [H1 [_ [_ [H4 _]]]].
  split; [exact H1 | exact H4].
Defined.

(** X17.  What [isValidEmail] accepts stays accepted when a character that
    is neither white space nor [@] (a [.], for one) is put before it or
    after it. *)
Theorem isValidEmail_extends :
  forall (text : jsstring) (c : code_unit),
    isValidEmail text = true ->
    is_white_space c = false -> c <> 64%N ->
    isValidEmail (c :: text) = true /\ isValidEmail (text ++ [c]) = true.
Proof.
  intros text c H Hws Hat.
  assert (Hc : plain_char c = true) by (apply plain_char_spec; auto).
  apply accepted_iff_shape in H.
  destruct H as [l [d [t [-> [Hl [Hd Ht]]]]]].
  split; apply accepted_iff_shape.
  - exists (c :: l), d, t. split; [reflexivity|].
    split; [|auto]. split; [discriminate|].
    constructor; [exact Hc | apply Hl].
  - exists l, d, (t ++ [c]). split; [rewrite <- !app_assoc; reflexivity|].
    split; [exact Hl|]. split; [exact Hd|]. split.
    + destruct t; discriminate.
    + apply Forall_app. split; [apply Ht | repeat constructor; exact Hc].
Qed.

Lemma isValidEmail_extends_witness :
  isValidEmail (lit "user@example.com") = true /\
  isValidEmail (46%N :: lit "user@example.com") = true /\
  isValidEmail (lit "user@example.com" ++ [46%N]) = true.
Proof.
  split; [reflexivity|].
  refine (isValidEmail_extends (lit "user@example.com") 46%N
            eq_refl eq_refl _).
  discriminate.
Defined.

(** ** [capitalize] *)

Section Capitalize.

Variable unicode_upper : N -> list N.

Lemma toUpperCase_ascii (c : code_unit) :
  (c < 128)%N -> toUpperCase unicode_upper [c] = [ascii_upper c].
Proof.
  intros Hc. unfold ascii_upper.
  destruct ((97 <=? c) && (c <=? 122))%N eqn:Hlower.
  - rewrite UtilsSpec.toUpperCase_one. unfold upper_code_point.
    rewrite Hlower. cbn [flat_map app]. unfold utf16_encode.
    destruct (N.ltb_spec (c - 32) 0x10000) as [_|H]; [reflexivity | lia].
  - apply UtilsSpec.toUpperCase_fixed; [lia | exact Hlower |].
    apply orb_true_iff. left. apply N.ltb_lt. exact Hc.
Qed.

(** X18.  Of a string that begins with an ASCII character, [capitalize]
    changes that character alone, and only if it is a lower-case letter
    (which becomes the letter 32 places before): the length is kept, and a
    string that begins with anything else in ASCII is returned as it is. *)
Theorem capitalize_of_an_ascii_start :
  forall (c : code_unit) (rest : jsstring),
    (c < 128)%N ->
    capitalize unicode_upper (c :: rest) = ascii_upper c :: rest /\
    List.length (capitalize unicode_upper (c :: rest))
    = List.length (c :: rest) /\
    (capitalize unicode_upper (c :: rest) = c :: rest <->
     ((97 <=? c) && (c <=? 122))%N = false).
Proof.
  intros c rest Hc.
  assert (E : capitalize unicode_upper (c :: rest) = ascii_upper c :: rest).
  { rewrite UtilsSpec.capitalize_cons, (toUpperCase_ascii c Hc). reflexivity. }
  rewrite E. split; [reflexivity|]. split; [reflexivity|].
  unfold ascii_upper.
  destruct ((97 <=? c) && (c <=? 122))%N eqn:Hlower.
  - split; [|discriminate]. intros H. injection H as H.
    apply andb_true_iff in Hlower. destruct Hlower as [H1 _].
    apply N.leb_le in H1. lia.
  - split; reflexivity.
Qed.

(** X19.  A string that begins with a surrogate, as every string whose
    first character lies outside the Basic Multilingual Plane does, is
    returned as it is: [charAt(0)] is half of that character, which has no
    upper case. *)
Theorem capitalize_of_a_surrogate_start :
  forall (c : code_unit) (rest : jsstring),
    is_high_surrogate c || is_low_surrogate c = true ->
    capitalize unicode_upper (c :: rest) = c :: rest.
Proof.
  intros c rest Hs.
  assert (Hr : (0xD800 <= c <= 0xDFFF)%N).
  { unfold is_high_surrogate, is_low_surrogate in Hs.
    apply orb_true_iff in Hs.
    destruct Hs as [H|H]; apply andb_true_iff in H; destruct H as [H1 H2];
      apply N.leb_le in H1, H2; lia. }
  rewrite UtilsSpec.capitalize_cons, UtilsSpec.toUpperCase_fixed;
    [reflexivity | lia | |].
  - apply andb_false_iff. right. apply N.leb_gt. lia.
  - rewrite Hs. apply orb_true_r.
Qed.

(** X20.  [capitalize] looks at the first character only: what is
    appended to a string that is not empty is appended to its
    capitalization. *)
Theorem capitalize_of_a_concatenation :
  forall s t : jsstring,
    s <> [] ->
    capitalize unicode_upper (s ++ t) = capitalize unicode_upper s ++ t.
Proof.
  intros [|c s] t Hs; [congruence|].
  cbn [app]. rewrite !UtilsSpec.capitalize_cons, <- app_assoc. reflexivity.
Qed.

End Capitalize.

Lemma capitalize_of_an_ascii_start_witness :
  (104 < 128)%N /\
  capitalize sharp_s_upper (lit "hello world") = lit "Hello world".
Proof.
  split; [reflexivity|].
  exact (proj1 (capitalize_of_an_ascii_start sharp_s_upper
                  104%N (lit "ello world") eq_refl)).
Defined.

(** The Deseret letter at the start is not capitalized, though the whole
    string in upper case begins with its capital. *)
Lemma capitalize_of_a_surrogate_start_witness :
  is_high_surrogate 0xD801%N || is_low_surrogate 0xD801%N = true /\
  capitalize deseret_upper [0xD801%N; 0xDC28%N; 97%N]
  = [0xD801%N; 0xDC28%N; 97%N] /\
  toUpperCase deseret_upper [0xD801%N; 0xDC28%N; 97%N]
  = [0xD801%N; 0xDC00%N; 65%N].
Proof.
  split; [reflexivity|]. split; [|reflexivity].
  exact (capitalize_of_a_surrogate_start deseret_upper
           0xD801%N [0xDC28%N; 97%N] eq_refl).
Defined.

Lemma capitalize_of_a_concatenation_witness :
  lit "hello" <> [] /\
  capitalize sharp_s_upper (lit "hello" ++ lit " world")
  = capitalize sharp_s_upper (lit "hello") ++ lit " world".
Proof.
  assert (H : lit "hello" <> []) by discriminate.
  split; [exact H|].
  exact (capitalize_of_a_concatenation sharp_s_upper
           (lit "hello") (lit " world") H).
Defined.

(** ** Integers *)

(** X23.  On integers [add], [subtract] and [multiply] are exact: of two
    integers below [2^53] in magnitude they return the integer sum,
    difference or product, as long as it is below [2^53] too (a product
    that is zero may come as [-0], which is [== 0]). *)
Theorem integer_arithmetic_is_exact :
  forall a b : Z,
    (Z.abs a < 2 ^ 53)%Z -> (Z.abs b < 2 ^ 53)%Z ->
    ((Z.abs (a + b) < 2 ^ 53)%Z ->
     add (Number_of_Z a) (Number_of_Z b) = Number_of_Z (a + b)) /\
    ((Z.abs (a - b) < 2 ^ 53)%Z ->
     subtract (Number_of_Z a) (Number_of_Z b) = Number_of_Z (a - b)) /\
    ((Z.abs (a * b) < 2 ^ 53)%Z ->
     (multiply (Number_of_Z a) (Number_of_Z b)
      =? Number_of_Z (a * b))%float = true /\
     ((a * b <> 0)%Z ->
      multiply (Number_of_Z a) (Number_of_Z b) = Number_of_Z (a * b))).
Proof.
  intros a b Ha Hb. unfold add, subtract, multiply.
  split; [|split]; intros H.
  - apply add_integers; assumption.
  - apply sub_integers; assumption.
  - apply mul_integers; assumption.
Qed.

Lemma integer_arithmetic_is_exact_witness :
  (Z.abs (-3) < 2 ^ 53)%Z /\ (Z.abs 4 < 2 ^ 53)%Z /\
  multiply (Number_of_Z (-3)) (Number_of_Z 4) = Number_of_Z (-12).
Proof.
  split; [reflexivity|]. split; [reflexivity|].
  destruct (integer_arithmetic_is_exact (-3) 4 eq_refl eq_refl)
    as [_ [_ H]].
  refine (proj2 (H eq_refl) _). discriminate.
Defined.

End UtilsProperties.
